(** * batch_process.py: the batch orchestrator of the Fooocus image-to-video script

    A shallow embedding of [src/batch_process.py] and the properties of its
    one function, [process_images].

    Modelling conventions.
    - A Python [str] is a [string] holding the UTF-8 bytes of the text.  Byte
      order on UTF-8 coincides with code-point order, which is the order
      Python's [sorted] uses on [str].
    - A Python [int] is a [Z]; the loop index of [enumerate] is a [nat].  The
      one [float] of the script, [1 / framerate], is the dyadic rational the
      double is, rounded as IEEE 754 rounds.
    - The file system is a table from directory paths to directories, a
      directory being its files in [os.listdir] order, each with its name,
      modification time and content.  Path resolution is the operating
      system's: [os.path.join d fn] handed to a file operation denotes the
      entry [fn] of the directory [d].  The semantics are POSIX ones
      ([os.rename] replaces its target).  Permissions, and a regular file
      standing where a directory is expected, are outside the model, so
      [os.makedirs] never fails; a missing directory makes [os.listdir]
      raise.
    - The two child processes are opaque: they are parameters of the
      development, functions from the command and the file system to an exit
      status and a file system.
    - Effects are threaded by a small monad with state and exceptions.  A
      computation yields its result, the file system it leaves and the
      events it emitted: directory creations and listings, printed lines,
      child processes, renames and encoder calls.  The file system and the
      events survive an exception, as side effects do. *)

From Stdlib Require Import ZArith Lia Ascii DecimalString QArith Qabs.
From Stdlib Require Import DecimalNat DecimalPos DecimalZ.
From stdpp Require Import gmap strings list sorting.

Local Open Scope Z_scope.

(** ** Python's [str] operations used by the script *)

Module Str.

(** [c.lower()] on one byte.  [str.lower] also rewrites code points outside
    ASCII, whose UTF-8 bytes are all above 127 and are left alone here; the
    only code points that lower-case to text containing an ASCII letter are
    U+0130 (to "i" followed by U+0307) and U+212A (to "k"), so neither the
    comparison with the ASCII extensions nor the [".png"] suffix test can
    tell the difference. *)
Definition lower_ascii (c : ascii) : ascii :=
  let n := N_of_ascii c in
  if ((65 <=? n) && (n <=? 90))%N then ascii_of_N (n + 32) else c.

Fixpoint lower (s : string) : string :=
  match s with
  | EmptyString => EmptyString
  | String c s' => String (lower_ascii c) (lower s')
  end.

(** [s[i:]] and [s[:i]] for an index [0 <= i <= len(s)]. *)
Fixpoint drop (i : nat) (s : string) : string :=
  match i, s with
  | O, _ => s
  | S _, EmptyString => EmptyString
  | S i', String _ s' => drop i' s'
  end.

Fixpoint take (i : nat) (s : string) : string :=
  match i, s with
  | O, _ => EmptyString
  | S _, EmptyString => EmptyString
  | S i', String c s' => String c (take i' s')
  end.

(** [s.startswith(p)] and [s.endswith(p)]. *)
Definition startswith (s p : string) : bool := String.prefix p s.

Definition endswith (s p : string) : bool :=
  (String.length p <=? String.length s)%nat
  && String.eqb (drop (String.length s - String.length p) s) p.

(** [s.rfind(c)] for a one-character [c]: the highest index of [c] in [s],
    or [-1]. *)
Fixpoint rfind_from (i : Z) (c : ascii) (s : string) : Z :=
  match s with
  | EmptyString => -1
  | String a s' =>
      let r := rfind_from (i + 1) c s' in
      if 0 <=? r then r else if Ascii.eqb a c then i else -1
  end.

Definition rfind (c : ascii) (s : string) : Z := rfind_from 0 c s.

(** [str(n)] for an [int]. *)
Definition of_Z (n : Z) : string := NilZero.string_of_int (Z.to_int n).

(** [str(n)] for a non-negative loop index. *)
Definition of_nat (n : nat) : string := NilZero.string_of_uint (Nat.to_uint n).

(** ['0' * k]. *)
Fixpoint zeros (k : nat) : string :=
  match k with
  | O => EmptyString
  | S k' => String "0" (zeros k')
  end.

(** The format specification [0wd] applied to a non-negative integer:
    zero-padded on the left to at least [w] characters. *)
Definition format_0d (w : nat) (n : nat) : string :=
  let s := of_nat n in
  zeros (w - String.length s) +:+ s.

End Str.

(** ** Python's [float], as far as [1 / framerate] and its formatting go *)

Module Float.

(** [a / b] rounded to the nearest integer, ties to even, for [0 < b]. *)
Definition round_half_even (a b : Z) : Z :=
  let q := a / b in
  let r := a mod b in
  if 2 * r <? b then q
  else if b <? 2 * r then q + 1
  else if Z.even q then q else q + 1.

(** A finite double: [(-1)^neg * num / 2^scale]. *)
Record float := Float { neg : bool; num : Z; scale : Z }.

(** [1 / n] for an [int] [n] (true division): [ZeroDivisionError] for
    [n = 0], otherwise the double nearest to the quotient, ties to even.
    The quotient lies in the binade of exponent [- log2_up |n|], whose
    doubles are the multiples of [2^-(52 + log2_up |n|)]; below the normal
    range the spacing stays at [2^-1074]. *)
Definition truediv_1 (n : Z) : option float :=
  if n =? 0 then None
  else
    let a := Z.abs n in
    let p := Z.min (52 + Z.log2_up a) 1074 in
    Some {| neg := n <? 0; num := round_half_even (2 ^ p) a; scale := p |}.

(** The magnitude printed by the format specification [.6f], in millionths:
    the exact value of the double rounded to six decimals, ties to even. *)
Definition micros (x : float) : Z :=
  round_half_even (num x * 10 ^ 6) (2 ^ scale x).

(** [format(x, ".6f")]; the sign of a negative zero is printed. *)
Definition format_6f (x : float) : string :=
  let m := micros x in
  (if neg x then "-" else EmptyString)
  +:+ Str.of_Z (m / 10 ^ 6) +:+ "."
  +:+ Str.format_0d 6 (Z.to_nat (m mod 10 ^ 6)).

(** The rational number that the printed text denotes. *)
Definition printed_value (x : float) : Q :=
  (if neg x then - micros x else micros x) # 1000000.

End Float.

(** ** [os.path] (posixpath) *)

Module Path.

(** The inner [while] of [genericpath._splitext]: is some character of the
    file name before the last dot not a dot? *)
Fixpoint has_non_dot (s : string) : bool :=
  match s with
  | EmptyString => false
  | String c s' => if Ascii.eqb c "." then has_non_dot s' else true
  end.

(** [os.path.splitext(p)]: the extension starts at the last dot of the last
    path component, leading dots of the component not counting. *)
Definition splitext (p : string) : string * string :=
  let sepIndex := Str.rfind "/" p in
  let dotIndex := Str.rfind "." p in
  if (sepIndex <? dotIndex)
     && has_non_dot (Str.take (Z.to_nat (dotIndex - (sepIndex + 1)))
                              (Str.drop (Z.to_nat (sepIndex + 1)) p))
  then (Str.take (Z.to_nat dotIndex) p, Str.drop (Z.to_nat dotIndex) p)
  else (p, EmptyString).

(** [os.path.join(a, b)]. *)
Definition join (a b : string) : string :=
  if Str.startswith b "/" then b
  else if String.eqb a EmptyString || Str.endswith a "/" then a +:+ b
  else a +:+ "/" +:+ b.

End Path.

(** ** Python's [sorted] *)

Section Sorted.
Context {A K : Type} (leb : K → K → bool) (key : A → K).

(** Insertion in front of the first element whose key is not smaller. *)
Fixpoint insort (x : A) (l : list A) : list A :=
  match l with
  | [] => [x]
  | y :: l' => if leb (key x) (key y) then x :: l else y :: insort x l'
  end.

(** [sorted(l, key=key)]: ascending and stable (elements with equal keys
    keep their order). *)
Definition sorted (l : list A) : list A := foldr insort [] l.
End Sorted.

(** ** The file system, exceptions and observable events *)

(** A directory entry: its name, its modification time (the value
    [os.path.getmtime] returns, in its order) and its content. *)
Record entry := Entry { name : string; mtime : Z; data : string }.

#[global] Instance entry_eq_dec : EqDecision entry.
Proof. solve_decision. Defined.

(** Directories by path, each with its entries in [os.listdir] order. *)
Abbreviation fs := (gmap string (list entry)).

Inductive exn :=
| FileNotFoundError (path : string)
| CalledProcessError (returncode : Z) (cmd : list string)
| IndexError
| ZeroDivisionError.

Inductive event :=
| Makedirs (path : string)
| Listdir (path : string)
| Print (line : string)
| SubprocessRun (cmd : list string) (returncode : Z)
| Rename (src dst : string)
| System (cmd : string) (status : Z).

(** A computation: from the file system to a result (raised exception or
    returned value), the file system afterwards and the events emitted, in
    order. *)
Definition M (A : Type) : Type := fs → (exn + A) * fs * list event.

Definition ret {A} (a : A) : M A := λ w, (inr a, w, []).

Definition raise {A} (e : exn) : M A := λ w, (inl e, w, []).

Definition bind {A B} (m : M A) (f : A → M B) : M B := λ w,
  match m w with
  | (inl e, w1, t1) => (inl e, w1, t1)
  | (inr a, w1, t1) =>
      match f a w1 with
      | (r, w2, t2) => (r, w2, t1 ++ t2)
      end
  end.

#[global] Instance M_ret : MRet M := @ret.
#[global] Instance M_bind : MBind M := λ A B f m, bind m f.

Definition emit (ev : event) : M unit := λ w, (inr tt, w, [ev]).

(** [print(line)]. *)
Definition print (line : string) : M unit := emit (Print line).

(** [l[-1]]. *)
Definition subscript_last {A} (l : list A) : M A :=
  match last l with
  | Some x => ret x
  | None => raise IndexError
  end.

(** The parents of a path: its proper prefixes that end where a run of
    separators begins, the root left out. *)
Definition parents (path : string) : list string :=
  omap (λ i, match i with
             | O => None
             | S j =>
                 if bool_decide (String.get i path = Some "/"%char
                                 ∧ String.get j path ≠ Some "/"%char)
                 then Some (Str.take i path) else None
             end)
       (seq 0 (String.length path)).

(** [os.mkdir] of a path unless a directory is there. *)
Definition mkdir_missing (path : string) (w : fs) : fs :=
  match w !! path with Some _ => w | None => <[path := []]> w end.

(** [os.makedirs(path, exist_ok=True)]: an existing directory is left as it
    is; a missing one is created empty, with the parents that are missing. *)
Definition after_makedirs (path : string) (w : fs) : fs :=
  match w !! path with
  | Some _ => w
  | None => foldr mkdir_missing w (parents path ++ [path])
  end.

Definition makedirs (path : string) : M unit := λ w,
  (inr tt, after_makedirs path w, [Makedirs path]).

(** [os.listdir(path)]. *)
Definition listdir (path : string) : M (list string) := λ w,
  (match w !! path with
   | Some d => inr (name <$> d)
   | None => inl (FileNotFoundError path)
   end, w, [Listdir path]).

(** The entry called [fn] in a directory. *)
Definition lookup_entry (fn : string) (d : list entry) : option entry :=
  list_find (λ e, name e = fn) d ≫= λ ie, Some ie.2.

(** [os.path.getmtime(os.path.join(dir, fn))]. *)
Definition getmtime (dir fn : string) : M Z := λ w,
  (match w !! dir ≫= lookup_entry fn with
   | Some e => inr (mtime e)
   | None => inl (FileNotFoundError (Path.join dir fn))
   end, w, []).

(** What [rename] does to the directory holding both names: nothing when the
    names are equal, otherwise an entry already called [dst] is replaced. *)
Definition rename_in (src dst : string) (d : list entry) : list entry :=
  if decide (src = dst) then d
  else
    (λ e, if decide (name e = src) then Entry dst (mtime e) (data e) else e)
      <$> filter (λ e, name e ≠ dst) d.

(** [os.rename(os.path.join(dir, src), os.path.join(dir, dst))]. *)
Definition rename (dir src dst : string) : M unit := λ w,
  match w !! dir ≫= λ d, lookup_entry src d ≫= λ _, Some d with
  | Some d => (inr tt, <[dir := rename_in src dst d]> w, [Rename src dst])
  | None => (inl (FileNotFoundError (Path.join dir src)), w, [Rename src dst])
  end.

(** [for idx, x in enumerate(l, start=idx): body]. *)
Fixpoint for_enumerate (body : nat → string → M unit) (idx : nat)
    (l : list string) : M unit :=
  match l with
  | [] => ret tt
  | x :: l' => body idx x ;; for_enumerate body (S idx) l'
  end.

(** ** The script *)

(** The set of allowed extensions (line 22). *)
Definition extensions : list string :=
  [".png"; ".jpg"; ".jpeg"; ".bmp"; ".tif"; ".tiff"].

(** The filter of lines 24-25 on one file name. *)
Definition is_image (f : string) : Prop :=
  Str.lower (Path.splitext f).2 ∈ extensions.

#[global] Instance is_image_dec f : Decision (is_image f).
Proof. unfold is_image. apply _. Defined.

(** The list [files] of lines 23-26, from the directory listing. *)
Definition image_files (listing : list string) : list string :=
  sorted String.leb id (filter is_image listing).

(** The test of line 57 on one file name. *)
Definition is_png (fn : string) : Prop :=
  Str.endswith (Str.lower fn) ".png" = true.

#[global] Instance is_png_dec fn : Decision (is_png fn).
Proof. unfold is_png. apply _. Defined.

(** [f"frame_{idx:03d}.png"] (line 35). *)
Definition frame_name (idx : nat) : string :=
  "frame_" +:+ Str.format_0d 3 idx +:+ ".png".

(** The progress line of line 36. *)
Definition progress_line (total idx : nat) (filename : string) : string :=
  "[" +:+ Str.of_nat idx +:+ "/" +:+ Str.of_nat total
  +:+ "] Processing " +:+ filename +:+ " → " +:+ frame_name idx.

(** The truth value of [preset] (line 47): [None] and the empty string are
    false. *)
Definition preset_args (preset : option string) : list string :=
  match preset with
  | Some p => if String.eqb p EmptyString then [] else ["--preset"; p]
  | None => []
  end.

(** The encoder command of lines 66-71.  The division is the first thing the
    f-string evaluates. *)
Definition ffmpeg_cmd (output_folder : string) (framerate video_fps : Z)
    : exn + string :=
  let video_path := Path.join output_folder "output_video.mp4" in
  match Float.truediv_1 framerate with
  | None => inl ZeroDivisionError
  | Some x =>
      inr ("ffmpeg -framerate " +:+ Float.format_6f x +:+ " "
           +:+ "-i " +:+ output_folder +:+ "/frame_%03d.png "
           +:+ "-c:v libx264 -r " +:+ Str.of_Z video_fps
           +:+ " -pix_fmt yuv420p " +:+ video_path)
  end.

Section Script.

(** [sys.executable].  The name [sys] is bound by the [import sys] of the
    [__main__] block (line 107), which runs before the only call of
    [process_images]. *)
Variable sys_executable : string.

(** The upscaler: what running the command of lines 38-49 does to the file
    system, and its exit status. *)
Variable upscaler : list string → fs → Z * fs.

(** The encoder: what the shell command of lines 67-71 does to the file
    system, and the status [os.system] returns. *)
Variable encoder : string → fs → Z * fs.

(** [subprocess.run(cmd, check=True)]. *)
Definition subprocess_run (cmd : list string) : M unit := λ w,
  let '(returncode, w') := upscaler cmd w in
  (if returncode =? 0 then inr tt
   else inl (CalledProcessError returncode cmd),
   w', [SubprocessRun cmd returncode]).

(** [os.system(cmd)]. *)
Definition system (cmd : string) : M Z := λ w,
  let '(status, w') := encoder cmd w in
  (inr status, w', [System cmd status]).

(** The command of lines 38-49. *)
Definition upscale_cmd (output_folder : string) (preset : option string)
    (upscale_factor : Z) (input_path : string) : list string :=
  [sys_executable; "entry_with_update.py"; "--share";
   "--in-browser"; "False"; "--always-high-vram";
   "--upscale"; Str.of_Z upscale_factor;
   "--output-path"; output_folder]
  ++ preset_args preset
  ++ ["--image"; input_path].

(** Lines 56-59: the newest PNG of the output folder. *)
Definition newest_png (output_folder : string) : M string :=
  listing ← listdir output_folder;
  keyed ← mapM (λ fn, t ← getmtime output_folder fn; mret (t, fn))
               (filter is_png listing);
  subscript_last (snd <$> sorted Z.leb fst keyed).

(** Lines 56-63: the rename step of one image. *)
Definition rename_step (output_folder : string) (idx : nat) : M unit :=
  generated ← newest_png output_folder;
  rename output_folder generated (frame_name idx).

(** Lines 34-63: the body of the loop. *)
Definition process_image (input_folder output_folder : string)
    (preset : option string) (upscale_factor : Z) (total : nat)
    (idx : nat) (filename : string) : M unit :=
  let input_path := Path.join input_folder filename in
  print (progress_line total idx filename);;
  subprocess_run (upscale_cmd output_folder preset upscale_factor input_path);;
  rename_step output_folder idx.

(** Lines 65-74: the encoding. *)
Definition encode (output_folder : string) (framerate video_fps : Z)
    : M unit :=
  let video_path := Path.join output_folder "output_video.mp4" in
  match ffmpeg_cmd output_folder framerate video_fps with
  | inl e => raise e
  | inr cmd =>
      print "Merging frames into video…";;
      system cmd;;
      print ("✅ Video saved to: " +:+ video_path)
  end.

(** Lines 5-74. *)
Definition process_images (input_folder output_folder : string)
    (preset : option string) (upscale_factor framerate video_fps : Z)
    : M unit :=
  makedirs output_folder;;
  listing ← listdir input_folder;
  let files := image_files listing in
  match files with
  | [] => print ("No images found in " +:+ input_folder)
  | _ :: _ =>
      for_enumerate
        (process_image input_folder output_folder preset upscale_factor
                       (length files))
        1%nat files;;
      encode output_folder framerate video_fps
  end.

(** The namespace [argparse] builds (lines 77-104): both folders are
    required, the numbers are typed [int] and nothing more. *)
Record Namespace := {
  input_folder : string;
  output_folder : string;
  preset : option string;
  upscale_factor : Z;
  framerate : Z;
  video_fps : Z
}.

(** Lines 109-116: the call of the [__main__] block.  (The change of
    working directory of line 108 bears on how the operating system resolves
    relative paths, which the table of directories leaves out.) *)
Definition main (args : Namespace) : M unit :=
  process_images (input_folder args) (output_folder args) (preset args)
                 (upscale_factor args) (framerate args) (video_fps args).

End Script.

(** ** Reading directories and traces *)

(** The modification time [getmtime] finds for a name of the directory. *)
Definition mtime_of (d : list entry) (fn : string) : Z :=
  default 0 (mtime <$> lookup_entry fn d).

(** The name lines 56-59 select in a directory, if any. *)
Definition newest (d : list entry) : option string :=
  last (snd <$> sorted Z.leb fst
          ((λ fn, (mtime_of d fn, fn)) <$> filter is_png (name <$> d))).

(** The entries of a directory that carry a given name. *)
Definition named (fn : string) (d : list entry) : list entry :=
  filter (λ e, name e = fn) d.

(** The renames, child processes and encoder calls of a trace, in order. *)
Definition renames (t : list event) : list (string * string) :=
  omap (λ ev, match ev with Rename s d => Some (s, d) | _ => None end) t.

Definition runs (t : list event) : list (list string * Z) :=
  omap (λ ev, match ev with SubprocessRun c rc => Some (c, rc) | _ => None end) t.

Definition systems (t : list event) : list (string * Z) :=
  omap (λ ev, match ev with System c st => Some (c, st) | _ => None end) t.

(** ** The contract of the upscaler *)

(** What the script expects of the upscaler (its comment on lines 53-55, the
    spec's child process contract #1): run on an image with the output folder
    in place, it exits with status 0 and leaves in that folder one new entry,
    a PNG under a name not in use, newer than every PNG there, holding
    [content] of the image path; the other entries of the folder are as they
    were. *)
Definition keeps_contract (sys_executable : string)
    (upscaler : list string → fs → Z * fs) (out : string)
    (pre : option string) (uf : Z) (content : string → string) : Prop :=
  ∀ path w d,
    w !! out = Some d →
    ∃ e d' w',
      upscaler (upscale_cmd sys_executable out pre uf path) w = (0, w')
      ∧ w' !! out = Some d'
      ∧ d' ≡ₚ e :: d
      ∧ is_png (name e)
      ∧ (name e ∉ name <$> d)
      ∧ (∀ e0, e0 ∈ d → is_png (name e0) → mtime e0 < mtime e)
      ∧ data e = content path.

(** ** Child processes and folders for concrete runs *)

(** The argument that follows a flag on a command line. *)
Fixpoint arg_after (flag : string) (cmd : list string) : string :=
  match cmd with
  | a :: ((b :: _) as rest) =>
      if String.eqb a flag then b else arg_after flag rest
  | _ => EmptyString
  end.

(** The content an upscaler makes of the image of its command line. *)
Definition upscaled (cmd : list string) : string :=
  "upscaled " +:+ arg_after "--image" cmd.

(** The length of the longest name and the latest modification time of a
    directory. *)
Definition longest_name (d : list entry) : nat :=
  foldr Nat.max 0%nat ((λ e, String.length (name e)) <$> d).

Definition latest_mtime (d : list entry) : Z :=
  foldr Z.max 0 (mtime <$> d).

(** An upscaler that keeps its contract: it adds one PNG to the output
    folder, under a name longer than every name there and newer than
    everything there, and exits with status 0. *)
Definition depositing_upscaler (cmd : list string) (w : fs) : Z * fs :=
  let out := arg_after "--output-path" cmd in
  let d := default [] (w !! out) in
  (0, <[out := (d ++ [Entry ("fooocus_" +:+ Str.zeros (longest_name d)
                                        +:+ ".png")
                            (1 + latest_mtime d)
                            (upscaled cmd)])]> w).

(** An upscaler that exits with a status and writes nothing when asked for
    one given image, and keeps its contract otherwise. *)
Definition upscaler_failing_on (image : string) (status : Z)
    (cmd : list string) (w : fs) : Z * fs :=
  if String.eqb (arg_after "--image" cmd) image then (status, w)
  else depositing_upscaler cmd w.

(** An upscaler that exits with status 0 and writes nothing. *)
Definition idle_upscaler (cmd : list string) (w : fs) : Z * fs := (0, w).

(** An encoder that writes nothing and returns a given status. *)
Definition exiting_encoder (status : Z) (cmd : string) (w : fs) : Z * fs :=
  (status, w).

(** The input folder of the spec's example, and one without images. *)
Definition three_images : fs :=
  {[ "in" := [Entry "b.jpg" 12 "B"; Entry "a.png" 11 "A";
              Entry "c.bmp" 10 "C"; Entry "notes.txt" 13 "N"] ]}.

Definition no_images : fs :=
  {[ "in" := [Entry "notes.txt" 13 "N"; Entry ".png" 14 "hidden"] ]}.

(** * Properties *)

(** ** The library functions on concrete inputs *)

Example parents_nested : parents "a/b//c" = ["a"; "a/b"].
Proof. reflexivity. Qed.
Example parents_absolute : parents "/srv/out/" = ["/srv"; "/srv/out"].
Proof. reflexivity. Qed.
Example makedirs_nested :
  after_makedirs "a/b" {[ "in" := [] ]}
  = {[ "in" := []; "a" := []; "a/b" := [] ]}.
Proof. by vm_compute. Qed.
Example splitext_png : Path.splitext "a.PNG" = ("a", ".PNG").
Proof. reflexivity. Qed.
Example splitext_dotfile : Path.splitext ".png" = (".png", EmptyString).
Proof. reflexivity. Qed.
Example splitext_tar : Path.splitext "x/y.tar.gz" = ("x/y.tar", ".gz").
Proof. reflexivity. Qed.
Example splitext_dir_dot : Path.splitext "x.d/y" = ("x.d/y", EmptyString).
Proof. reflexivity. Qed.
Example join_plain : Path.join "out" "frame_001.png" = "out/frame_001.png".
Proof. reflexivity. Qed.
Example join_slash : Path.join "out/" "a.png" = "out/a.png".
Proof. reflexivity. Qed.
Example format_0d_7 : Str.format_0d 3 7 = "007".
Proof. reflexivity. Qed.
Example format_0d_1234 : Str.format_0d 3 1234 = "1234".
Proof. reflexivity. Qed.
Example of_Z_neg : Str.of_Z (-12) = "-12".
Proof. reflexivity. Qed.
Example endswith_png : Str.endswith (Str.lower "X.PnG") ".png" = true.
Proof. reflexivity. Qed.
Example format_half : Float.format_6f <$> Float.truediv_1 2 = Some "0.500000".
Proof. reflexivity. Qed.
Example format_third : Float.format_6f <$> Float.truediv_1 3 = Some "0.333333".
Proof. reflexivity. Qed.
Example format_128 : Float.format_6f <$> Float.truediv_1 128 = Some "0.007812".
Proof. reflexivity. Qed.
Example format_neg : Float.format_6f <$> Float.truediv_1 (-4) = Some "-0.250000".
Proof. reflexivity. Qed.
Example format_640 : Float.format_6f <$> Float.truediv_1 640 = Some "0.001563".
Proof. reflexivity. Qed.
Example format_tiny : Float.format_6f <$> Float.truediv_1 (-3000000) = Some "-0.000000".
Proof. reflexivity. Qed.
Example format_3200 : Float.format_6f <$> Float.truediv_1 3200 = Some "0.000313".
Proof. reflexivity. Qed.
Example format_2000000 : Float.format_6f <$> Float.truediv_1 2000000 = Some "0.000000".
Proof. reflexivity. Qed.

(** ** Numbers and their text *)

Lemma round_half_even_close x b :
  0 < b → 2 * Z.abs (Float.round_half_even x b * b - x) ≤ b.
Proof.
  intros Hb. unfold Float.round_half_even.
  pose proof (Z.div_mod x b ltac:(lia)) as Hdm.
  pose proof (Z.mod_pos_bound x b Hb) as Hr.
  set (q := x / b) in *. set (r := x mod b) in *.
  destruct (Z.ltb_spec (2 * r) b); [lia|].
  destruct (Z.ltb_spec b (2 * r)); [lia|].
  destruct (Z.even q); lia.
Qed.

Lemma round_half_even_small x b :
  0 ≤ x → 2 * x < b → Float.round_half_even x b = 0.
Proof.
  intros Hx Hb. unfold Float.round_half_even.
  rewrite Z.div_small, Z.mod_small by lia.
  destruct (Z.ltb_spec (2 * x) b); [done|lia].
Qed.

Lemma round_half_even_nonneg x b :
  0 < b → 0 ≤ x → 0 ≤ Float.round_half_even x b.
Proof.
  intros Hb Hx. unfold Float.round_half_even.
  pose proof (Z.div_pos x b Hx Hb).
  repeat case_match; lia.
Qed.

Lemma micros_close a :
  0 < a →
  let p := Z.min (52 + Z.log2_up a) 1074 in
  let m := Float.round_half_even (2 ^ p) a in
  let M := Float.round_half_even (m * 10 ^ 6) (2 ^ p) in
  2 * Z.abs (M * a - 10 ^ 6) ≤ a.
Proof.
  intros Ha p m M.
  pose proof (Z.log2_up_nonneg a) as HL.
  assert (0 < 2 ^ p) as HP by (apply Z.pow_pos_nonneg; lia).
  pose proof (round_half_even_close (2 ^ p) a Ha) as Hm. fold m in Hm.
  pose proof (round_half_even_close (m * 10 ^ 6) (2 ^ p) HP) as HM. fold M in HM.
  assert (0 ≤ m) as Hm0 by (apply round_half_even_nonneg; lia).
  change (10 ^ 6) with 1000000 in *.
  destruct (Z.le_gt_cases (52 + Z.log2_up a) 1074) as [Hle|Hgt].
  - assert (4503599627370496 * a ≤ 2 ^ p) as Hbig.
    { unfold p. rewrite Z.min_l, Z.pow_add_r by lia.
      change (2 ^ 52) with 4503599627370496.
      assert (a ≤ 2 ^ Z.log2_up a); [|lia].
      destruct (Z.eq_dec a 1) as [->|]; [done|].
      apply Z.log2_up_spec. lia. }
    clearbody m M. generalize dependent (2 ^ p). intros P HP Hm HM Hbig.
    nia.
  - assert (2 ^ 1022 < a) as Hbig.
    { assert (1 < a) as Ha1.
      { destruct (Z.eq_dec a 1) as [->|]; [|lia]. by vm_compute in Hgt. }
      assert (2 ^ Z.pred (Z.log2_up a) < a) as H by (by apply Z.log2_up_spec).
      eapply Z.le_lt_trans; [|exact H].
      apply Z.pow_le_mono_r; lia. }
    assert (p = 1074) as Hp by (unfold p; lia).
    assert (2 ^ p = 4503599627370496 * 2 ^ 1022) as HPeq.
    { rewrite Hp. change 1074 with (52 + 1022). by rewrite Z.pow_add_r. }
    assert (2000000 * 4503599627370497 < 2 ^ 1022) as Hhuge.
    { change 1022 with (80 + 942). rewrite Z.pow_add_r by lia.
      assert (1 ≤ 2 ^ 942) by (apply Z.lt_pred_le, Z.pow_pos_nonneg; lia).
      change (2 ^ 80) with 1208925819614629174706176. lia. }
    assert (m ≤ 4503599627370496) as Hm1.
    { clearbody m. generalize dependent (2 ^ 1022). intros Q ???.
      generalize dependent (2 ^ p). intros P. intros. nia. }
    assert (M = 0) as ->.
    { apply round_half_even_small; [lia|].
      rewrite HPeq. clearbody m. generalize dependent (2 ^ 1022). intros. nia. }
    lia.
Qed.

Lemma printed_value_close fr x :
  Float.truediv_1 fr = Some x →
  (Qabs (Float.printed_value x - 1 / inject_Z fr) <= 1 # 2000000)%Q.
Proof.
  unfold Float.truediv_1. destruct (Z.eqb_spec fr 0) as [|Hfr]; [done|].
  intros [= <-]. unfold Float.printed_value, Float.micros. simpl.
  pose proof (micros_close (Z.abs fr) ltac:(lia)) as Hc. simpl in Hc.
  set (M := Float.round_half_even _ (2 ^ _)) in *. clearbody M.
  change (10 ^ 6) with 1000000 in Hc.
  apply Qabs_Qle_condition.
  destruct fr as [|p|p]; [done| |];
    unfold Qle, Qminus, Qplus, Qopp, Qdiv, Qmult, Qinv, inject_Z; simpl;
    rewrite ?Pos2Z.inj_mul; simpl in Hc; lia.
Qed.

(** [str(n)] reads back as [n]. *)
Lemma of_Z_parse z : Z.of_int <$> NilZero.int_of_string (Str.of_Z z) = Some z.
Proof.
  unfold Str.of_Z. rewrite NilZero.isi.
  - simpl. f_equal. apply DecimalZ.of_to.
  - destruct z as [|p|p]; simpl; try done.
    intros [= H]. by apply DecimalPos.Unsigned.to_uint_nonnil in H.
  - destruct z as [|p|p]; simpl; try done.
    intros [= H]. by apply DecimalPos.Unsigned.to_uint_nonnil in H.
Qed.

(** ** Strings and frame names *)

Lemma string_length_app s1 s2 :
  String.length (s1 +:+ s2) = (String.length s1 + String.length s2)%nat.
Proof. induction s1 as [|c s1 IH]; simpl; [done|]. by rewrite IH. Qed.

Lemma length_zeros k : String.length (Str.zeros k) = k.
Proof. induction k as [|k IH]; simpl; [done|]. by rewrite IH. Qed.

Lemma append_nil_l s : EmptyString +:+ s = s.
Proof. reflexivity. Qed.

Lemma append_cons c s1 s2 : String c s1 +:+ s2 = String c (s1 +:+ s2).
Proof. reflexivity. Qed.

(** Appending the same text on the right is injective. *)
Lemma append_inj_r s1 s2 s : s1 +:+ s = s2 +:+ s → s1 = s2.
Proof.
  revert s2. induction s1 as [|c s1 IH]; intros [|c2 s2] H.
  - done.
  - apply (f_equal String.length) in H.
    rewrite !string_length_app in H. simpl in H. lia.
  - apply (f_equal String.length) in H.
    rewrite !string_length_app in H. simpl in H. lia.
  - rewrite !append_cons in H. injection H as -> H. f_equal. by apply IH.
Qed.

(** Reading a zero-padded number back. *)
Lemma uint_of_string_zeros k s :
  NilEmpty.uint_of_string (Str.zeros k +:+ s)
  = Nat.iter k Decimal.D0 <$> NilEmpty.uint_of_string s.
Proof.
  induction k as [|k IH]; cbn [Str.zeros Nat.iter].
  - rewrite append_nil_l. by destruct (NilEmpty.uint_of_string s).
  - rewrite append_cons. cbn [NilEmpty.uint_of_string]. rewrite IH.
    by destruct (NilEmpty.uint_of_string s).
Qed.

Lemma of_uint_iter_D0 k d :
  Nat.of_uint (Nat.iter k Decimal.D0 d) = Nat.of_uint d.
Proof. induction k as [|k IH]; simpl; [done|]. exact IH. Qed.

Lemma format_0d_parse w n :
  Nat.of_uint <$> NilEmpty.uint_of_string (Str.format_0d w n) = Some n.
Proof.
  unfold Str.format_0d, Str.of_nat. rewrite uint_of_string_zeros.
  assert (Nat.to_uint n ≠ Decimal.Nil) as Hnil.
  { intros Hn. pose proof (DecimalNat.Unsigned.of_to n) as Hof.
    rewrite Hn in Hof. simpl in Hof. by subst n. }
  pose proof (NilZero.usu _ Hnil) as Hu.
  unfold NilZero.uint_of_string in Hu.
  destruct (NilZero.string_of_uint (Nat.to_uint n)) eqn:Hs; [done|].
  rewrite Hu. simpl. by rewrite of_uint_iter_D0, DecimalNat.Unsigned.of_to.
Qed.

Lemma frame_name_inj i j : frame_name i = frame_name j → i = j.
Proof.
  unfold frame_name. intros H.
  apply (inj (String.append "frame_")), append_inj_r in H.
  pose proof (format_0d_parse 3 i) as Hi. rewrite H, format_0d_parse in Hi.
  congruence.
Qed.

(** ** Sorting *)

Section SortedFacts.
Context {A K : Type} (leb : K → K → bool) (key : A → K).

Let R (x y : A) : Prop := leb (key x) (key y) = true.

Lemma insort_Permutation x l : insort leb key x l ≡ₚ x :: l.
Proof.
  induction l as [|y l IH]; simpl; [done|].
  destruct (leb (key x) (key y)); [done|].
  rewrite IH. apply Permutation_swap.
Qed.

Lemma sorted_Permutation l : sorted leb key l ≡ₚ l.
Proof.
  induction l as [|x l IH]; simpl; [done|].
  rewrite insort_Permutation. by f_equiv.
Qed.

Lemma elem_of_sorted x l : x ∈ sorted leb key l ↔ x ∈ l.
Proof. by rewrite sorted_Permutation. Qed.

Lemma sorted_nil l : sorted leb key l = [] ↔ l = [].
Proof.
  split; [|by intros ->].
  intros H. apply Permutation_nil_r. by rewrite <- H, sorted_Permutation.
Qed.

Lemma length_sorted l : length (sorted leb key l) = length l.
Proof. by rewrite sorted_Permutation. Qed.

Hypothesis leb_total : ∀ x y, leb x y = true ∨ leb y x = true.
Hypothesis leb_trans :
  ∀ x y z, leb x y = true → leb y z = true → leb x z = true.

Lemma insort_StronglySorted x l :
  StronglySorted R l → StronglySorted R (insort leb key x l).
Proof.
  induction 1 as [|y l Hl IH Hy]; simpl.
  - repeat constructor.
  - destruct (leb (key x) (key y)) eqn:Hxy.
    + constructor; [by constructor|].
      constructor; [done|].
      eapply Forall_impl; [exact Hy|]. intros z Hz. unfold R in *. eauto.
    + constructor; [done|].
      rewrite insort_Permutation. constructor; [|done].
      destruct (leb_total (key x) (key y)); [congruence|done].
Qed.

Lemma sorted_StronglySorted l : StronglySorted R (sorted leb key l).
Proof.
  induction l as [|x l IH]; simpl; [constructor|].
  by apply insort_StronglySorted.
Qed.

Lemma StronglySorted_last l z :
  StronglySorted R l → last l = Some z → ∀ y, y ∈ l → R y z.
Proof.
  induction 1 as [|x l Hl IH Hx]; [done|].
  intros Hlast y Hy. destruct l as [|x' l'].
  - simpl in Hlast. apply list_elem_of_singleton in Hy.
    simplify_eq. destruct (leb_total (key z) (key z)); done.
  - change (last (x :: x' :: l')) with (last (x' :: l')) in Hlast.
    apply elem_of_cons in Hy as [->|Hy]; [|by apply IH].
    rewrite Forall_forall in Hx. apply Hx.
    apply last_Some_elem_of in Hlast. done.
Qed.

(** The last element of [sorted l] carries a greatest key. *)
Lemma sorted_last_max l z :
  last (sorted leb key l) = Some z →
  z ∈ l ∧ ∀ y, y ∈ l → leb (key y) (key z) = true.
Proof.
  intros Hlast. split.
  - apply elem_of_sorted. by apply last_Some_elem_of.
  - intros y Hy.
    apply (StronglySorted_last _ _ (sorted_StronglySorted l) Hlast).
    by apply elem_of_sorted.
Qed.

Lemma sorted_last_is_Some l : l ≠ [] → is_Some (last (sorted leb key l)).
Proof.
  intros Hl. apply last_is_Some. by rewrite sorted_nil.
Qed.
End SortedFacts.

(** ** The monad *)

Lemma bind_inr {A B} (m : M A) (f : A → M B) w a w1 t1 :
  m w = (inr a, w1, t1) →
  (m ≫= f) w = (let '(r, w2, t2) := f a w1 in (r, w2, t1 ++ t2)).
Proof.
  intros H. unfold mbind, M_bind, bind. rewrite H. by destruct (f a w1) as [[??]?].
Qed.

Lemma bind_inl {A B} (m : M A) (f : A → M B) w e w1 t1 :
  m w = (inl e, w1, t1) → (m ≫= f) w = (inl e, w1, t1).
Proof. intros H. unfold mbind, M_bind, bind. by rewrite H. Qed.

(** ** Directory lookups *)

Lemma lookup_entry_Some fn d e :
  lookup_entry fn d = Some e → e ∈ d ∧ name e = fn.
Proof.
  unfold lookup_entry. intros H.
  destruct (list_find _ d) as [[i x]|] eqn:Hf; simplify_eq/=.
  apply list_find_Some in Hf as (Hi & Hn & _).
  split; [by eapply list_elem_of_lookup_2|done].
Qed.

Lemma lookup_entry_is_Some fn d :
  fn ∈ name <$> d → is_Some (lookup_entry fn d).
Proof.
  intros (e & -> & He)%list_elem_of_fmap. unfold lookup_entry.
  destruct (list_find_elem_of (λ x, name x = name e) d e) as [[i x] Hx]; [done..|].
  rewrite Hx. by eexists.
Qed.

Lemma lookup_entry_None fn d :
  fn ∉ name <$> d → lookup_entry fn d = None.
Proof.
  intros Hn. destruct (lookup_entry fn d) as [e|] eqn:He; [|done].
  apply lookup_entry_Some in He as [He <-].
  destruct Hn. by apply list_elem_of_fmap_2.
Qed.

(** A name that occurs once is looked up to its entry. *)
Lemma lookup_entry_unique fn d e :
  named fn d = [e] → lookup_entry fn d = Some e.
Proof.
  intros Hd.
  assert (e ∈ named fn d) as [Hn He]%list_elem_of_filter by (rewrite Hd; left).
  destruct (lookup_entry_is_Some fn d) as [e' He'].
  { rewrite <- Hn. by apply list_elem_of_fmap_2. }
  rewrite He'. f_equal.
  apply lookup_entry_Some in He' as [Hin Hname].
  assert (e' ∈ named fn d) as Hin' by by apply list_elem_of_filter.
  rewrite Hd in Hin'. by apply list_elem_of_singleton in Hin'.
Qed.

Lemma newest_elem_of d g :
  newest d = Some g → g ∈ name <$> d ∧ is_png g.
Proof.
  unfold newest. intros H.
  apply last_Some_elem_of, list_elem_of_fmap in H as ([t fn] & -> & H).
  apply elem_of_sorted, list_elem_of_fmap in H as (fn' & [= _ <-] & H).
  apply list_elem_of_filter in H as [??]. done.
Qed.

Lemma newest_None d : newest d = None ↔ filter is_png (name <$> d) = [].
Proof.
  unfold newest. rewrite last_None. split.
  - intros H%fmap_nil_inv%sorted_nil%fmap_nil_inv. done.
  - by intros ->.
Qed.

(** The selected name carries a greatest modification time among the PNG
    names of the directory. *)
Lemma newest_max d g fn :
  newest d = Some g → fn ∈ name <$> d → is_png fn →
  mtime_of d fn ≤ mtime_of d g.
Proof.
  unfold newest. intros H Hfn Hpng.
  rewrite fmap_last in H.
  destruct (last (sorted _ _ _)) as [[t g']|] eqn:Hl; simplify_eq/=.
  apply sorted_last_max in Hl as [Hin Hmax].
  - apply list_elem_of_fmap in Hin as (g0 & [= -> ->] & _).
    specialize (Hmax (mtime_of d fn, fn)). simpl in Hmax.
    apply Z.leb_le, Hmax.
    apply (list_elem_of_fmap_2 (λ fn, (mtime_of d fn, fn))), list_elem_of_filter.
    done.
  - intros x y. rewrite !Z.leb_le. lia.
  - intros x y z. rewrite !Z.leb_le. lia.
Qed.

(** ** Renaming inside a directory *)

Lemma rename_in_same fn d : rename_in fn fn d = d.
Proof. unfold rename_in. by rewrite decide_True. Qed.

Lemma elem_of_rename_in src dst d e' :
  src ≠ dst →
  e' ∈ rename_in src dst d ↔
  ∃ e, e ∈ d ∧ name e ≠ dst
       ∧ e' = if decide (name e = src) then Entry dst (mtime e) (data e) else e.
Proof.
  intros Hne. unfold rename_in. rewrite decide_False by done.
  rewrite list_elem_of_fmap. split.
  - intros (e & -> & [??]%list_elem_of_filter). by exists e.
  - intros (e & ? & ? & ->). exists e. split; [done|].
    by apply list_elem_of_filter.
Qed.

(** Entries called neither [src] nor [dst] are not touched. *)
Lemma rename_in_other src dst d e :
  name e ≠ src → name e ≠ dst → e ∈ rename_in src dst d ↔ e ∈ d.
Proof.
  intros Hs Hd. destruct (decide (src = dst)) as [->|Hne].
  { by rewrite rename_in_same. }
  rewrite elem_of_rename_in by done. split.
  - intros (x & Hx & _ & ->). case_decide; [|done]. by destruct Hd.
  - intros He. exists e. by rewrite decide_False.
Qed.

(** The entry called [src] is found under the name [dst], with its
    modification time and content. *)
Lemma rename_in_moved src dst d e :
  e ∈ d → name e = src → Entry dst (mtime e) (data e) ∈ rename_in src dst d.
Proof.
  intros He Hn. destruct (decide (src = dst)) as [->|Hne].
  { rewrite rename_in_same. destruct e; simplify_eq/=. done. }
  apply elem_of_rename_in; [done|]. exists e.
  rewrite decide_True by done. split_and!; [done| |done]. congruence.
Qed.

(** Whatever is called [dst] afterwards was called [src] before. *)
Lemma rename_in_target src dst d e' :
  e' ∈ rename_in src dst d → name e' = dst →
  ∃ e, e ∈ d ∧ name e = src ∧ e' = Entry dst (mtime e) (data e).
Proof.
  intros He' Hn. destruct (decide (src = dst)) as [->|Hne].
  { rewrite rename_in_same in He'. exists e'. destruct e'; simplify_eq/=. done. }
  apply elem_of_rename_in in He' as (e & He & Hd & ->); [|done].
  case_decide; [by exists e|done].
Qed.

(** The name [src] is free afterwards, unless it is [dst]. *)
Lemma rename_in_source_gone src dst d :
  src ≠ dst → src ∉ name <$> rename_in src dst d.
Proof.
  intros Hne (e' & Hn & He')%list_elem_of_fmap.
  apply elem_of_rename_in in He' as (e & He & Hd & ->); [|done].
  case_decide; simplify_eq/=.
Qed.

(** ** Entries by name *)

Lemma named_nil fn d : fn ∉ name <$> d → named fn d = [].
Proof.
  intros Hn. unfold named. destruct (filter _ d) as [|x l] eqn:Hf; [done|].
  assert (x ∈ filter (λ e, name e = fn) d) as [Hx Hin]%list_elem_of_filter
    by (rewrite Hf; left).
  destruct Hn. rewrite <- Hx. by apply list_elem_of_fmap_2.
Qed.

Lemma named_rename_in_other src dst d fn :
  fn ≠ src → fn ≠ dst → named fn (rename_in src dst d) = named fn d.
Proof.
  intros Hs Hd. destruct (decide (src = dst)) as [->|Hne].
  { by rewrite rename_in_same. }
  unfold rename_in, named. rewrite decide_False by done.
  induction d as [|x d IH]; [done|].
  rewrite !filter_cons. repeat case_decide; simplify_eq/=;
    rewrite ?filter_cons; repeat case_decide; simplify_eq/=;
    try done; by f_equal.
Qed.

Lemma named_rename_in_target src dst d :
  src ≠ dst →
  named dst (rename_in src dst d)
  = (λ e, Entry dst (mtime e) (data e)) <$> named src d.
Proof.
  intros Hne. unfold rename_in, named. rewrite decide_False by done.
  induction d as [|x d IH]; [done|].
  rewrite !filter_cons. repeat case_decide; simplify_eq/=;
    rewrite ?filter_cons; repeat case_decide; simplify_eq/=;
    try done; by f_equal.
Qed.

Lemma mtime_of_unique d e : named (name e) d = [e] → mtime_of d (name e) = mtime e.
Proof. intros H. unfold mtime_of. by rewrite (lookup_entry_unique _ _ e). Qed.

Lemma newest_strict d e :
  named (name e) d = [e] →
  is_png (name e) →
  (∀ e0, e0 ∈ d → e0 ≠ e → is_png (name e0) → mtime e0 < mtime e) →
  newest d = Some (name e).
Proof.
  intros Hu Hpng Hnew.
  assert (e ∈ d) as He.
  { assert (e ∈ named (name e) d) as [_ ?]%list_elem_of_filter by (rewrite Hu; left).
    done. }
  destruct (newest d) as [g|] eqn:Hg; last first.
  { apply newest_None in Hg.
    assert (name e ∈ filter is_png (name <$> d)) as Hin.
    { apply list_elem_of_filter. split; [done|]. by apply list_elem_of_fmap_2. }
    rewrite Hg in Hin. by apply not_elem_of_nil in Hin. }
  f_equal. destruct (decide (g = name e)) as [|Hne]; [done|]. exfalso.
  pose proof (newest_elem_of _ _ Hg) as [Hgin Hgpng].
  pose proof (newest_max d g (name e) Hg) as Hmax.
  rewrite (mtime_of_unique _ _ Hu) in Hmax.
  destruct (lookup_entry_is_Some g d Hgin) as [e0 He0].
  unfold mtime_of in Hmax. rewrite He0 in Hmax. simpl in Hmax.
  apply lookup_entry_Some in He0 as [Hin0 Hn0].
  assert (mtime e0 < mtime e).
  { apply Hnew; [done| |by rewrite Hn0]. intros ->. done. }
  assert (mtime e ≤ mtime e0); [|lia].
  apply Hmax; [by apply list_elem_of_fmap_2|done].
Qed.

(** ** The steps of the script *)

Section ScriptFacts.
Variable sys_executable : string.
Variable upscaler : list string → fs → Z * fs.
Variable encoder : string → fs → Z * fs.

Lemma mapM_getmtime dir w d l :
  w !! dir = Some d →
  (∀ fn, fn ∈ l → fn ∈ name <$> d) →
  mapM (λ fn, t ← getmtime dir fn; mret (t, fn)) l w
  = (inr ((λ fn, (mtime_of d fn, fn)) <$> l), w, []).
Proof.
  intros Hd. induction l as [|fn l IH]; intros Hl; [done|].
  destruct (lookup_entry_is_Some fn d) as [e He]; [apply Hl; left|].
  simpl. erewrite bind_inr; last first.
  { erewrite bind_inr; [reflexivity|].
    unfold getmtime. rewrite Hd. simpl. rewrite He. reflexivity. }
  simpl. erewrite bind_inr; [|apply IH; intros; apply Hl; by right].
  simpl. unfold mtime_of. rewrite He. done.
Qed.

Lemma newest_png_run dir w d :
  w !! dir = Some d →
  newest_png dir w
  = (match newest d with Some g => inr g | None => inl IndexError end,
     w, [Listdir dir]).
Proof.
  intros Hd. unfold newest_png.
  erewrite bind_inr; [|unfold listdir; rewrite Hd; reflexivity].
  erewrite bind_inr; last first.
  { apply mapM_getmtime; [done|]. by intros fn [_ ?]%list_elem_of_filter. }
  unfold subscript_last, newest.
  destruct (last _); reflexivity.
Qed.

Lemma newest_png_missing dir w :
  w !! dir = None →
  newest_png dir w = (inl (FileNotFoundError dir), w, [Listdir dir]).
Proof.
  intros Hd. unfold newest_png.
  erewrite bind_inl; [done|]. unfold listdir. by rewrite Hd.
Qed.

(** What the rename step does, in terms of the directory it finds. *)
Lemma rename_step_run dir idx w d :
  w !! dir = Some d →
  rename_step dir idx w
  = match newest d with
    | Some g => (inr tt, <[dir := rename_in g (frame_name idx) d]> w,
                 [Listdir dir; Rename g (frame_name idx)])
    | None => (inl IndexError, w, [Listdir dir])
    end.
Proof.
  intros Hd. unfold rename_step.
  destruct (newest d) as [g|] eqn:Hg.
  - erewrite bind_inr; [|by rewrite (newest_png_run _ _ d), Hg].
    unfold rename. rewrite Hd. simpl.
    destruct (lookup_entry_is_Some g d) as [e ->]; [|done].
    by apply newest_elem_of in Hg as [??].
  - erewrite bind_inl; [done|]. by rewrite (newest_png_run _ _ d), Hg.
Qed.

Lemma rename_step_missing dir idx w :
  w !! dir = None →
  rename_step dir idx w = (inl (FileNotFoundError dir), w, [Listdir dir]).
Proof.
  intros Hd. unfold rename_step.
  erewrite bind_inl; [done|]. by apply newest_png_missing.
Qed.

(** The rename step either renames the newest PNG, or fails before any
    rename and leaves the file system alone. *)
Lemma rename_step_cases dir idx w r w' t :
  rename_step dir idx w = (r, w', t) →
  (∃ d g, w !! dir = Some d ∧ newest d = Some g ∧ r = inr tt
          ∧ w' = <[dir := rename_in g (frame_name idx) d]> w
          ∧ t = [Listdir dir; Rename g (frame_name idx)])
  ∨ (∃ e, r = inl e ∧ w' = w ∧ t = [Listdir dir]
          ∧ match w !! dir with
            | Some d => e = IndexError ∧ filter is_png (name <$> d) = []
            | None => e = FileNotFoundError dir
            end).
Proof.
  destruct (w !! dir) as [d|] eqn:Hd.
  - rewrite (rename_step_run _ _ _ d Hd).
    destruct (newest d) as [g|] eqn:Hg; intros [= <- <- <-].
    + left. by exists d, g.
    + right. exists IndexError. by apply newest_None in Hg.
  - rewrite (rename_step_missing _ _ _ Hd). intros [= <- <- <-].
    right. by eexists.
Qed.

Section Loop.
Variables (inp out : string) (pre : option string) (uf : Z) (total : nat).

Let body := process_image sys_executable upscaler inp out pre uf total.
Let cmd_of (f : string) :=
  upscale_cmd sys_executable out pre uf (Path.join inp f).

(** One iteration: the child fails and that is all, or it succeeds and
    the rename step follows. *)
Lemma process_image_cases idx f w r w' t :
  body idx f w = (r, w', t) →
  ∃ rc w1, upscaler (cmd_of f) w = (rc, w1) ∧
    ((rc ≠ 0 ∧ r = inl (CalledProcessError rc (cmd_of f)) ∧ w' = w1
      ∧ t = [Print (progress_line total idx f);
             SubprocessRun (cmd_of f) rc])
     ∨ (rc = 0 ∧ ∃ tr, rename_step out idx w1 = (r, w', tr)
        ∧ t = Print (progress_line total idx f)
              :: SubprocessRun (cmd_of f) 0 :: tr)).
Proof.
  unfold body, process_image, print, emit, subprocess_run.
  unfold mbind, M_bind, bind. fold (cmd_of f).
  destruct (upscaler (cmd_of f) w) as [rc w1] eqn:Hup.
  destruct (Z.eqb_spec rc 0) as [->|Hrc].
  - destruct (rename_step out idx w1) as [[r2 w2] t2] eqn:Hr.
    intros [= <- <- <-]. exists 0, w1. split; [done|]. right.
    split; [done|]. by exists t2.
  - intros [= <- <- <-]. exists rc, w1. split; [done|]. by left.
Qed.

Lemma process_image_no_png idx f w w1 d1 :
  upscaler (cmd_of f) w = (0, w1) →
  w1 !! out = Some d1 →
  filter is_png (name <$> d1) = [] →
  body idx f w
  = (inl IndexError, w1,
     [Print (progress_line total idx f); SubprocessRun (cmd_of f) 0;
      Listdir out]).
Proof.
  intros Hup Hd1 Hnone%newest_None.
  unfold body, process_image, print, emit, subprocess_run.
  unfold mbind, M_bind, bind. fold (cmd_of f). rewrite Hup. simpl.
  by rewrite (rename_step_run _ _ _ d1 Hd1), Hnone.
Qed.

Lemma for_enumerate_app idx l1 l2 w :
  for_enumerate body idx (l1 ++ l2) w
  = (for_enumerate body idx l1
     ≫= λ _, for_enumerate body (idx + length l1) l2) w.
Proof.
  revert idx w. induction l1 as [|x l1 IH]; intros idx w; simpl.
  - unfold mbind, M_bind, bind, ret. simpl. rewrite Nat.add_0_r.
    by destruct (for_enumerate body idx l2 w) as [[??]?].
  - unfold mbind, M_bind, bind in *.
    destruct (body idx x w) as [[[e|[]] w1] t1]; [done|].
    rewrite IH. replace (idx + S (length l1))%nat with (S idx + length l1)%nat by lia.
    destruct (for_enumerate body (S idx) l1 w1) as [[[e|[]] w2] t2]; [done|].
    destruct (for_enumerate body _ l2 w2) as [[r3 w3] t3].
    by rewrite app_assoc.
Qed.

(** A loop that raises does so in an iteration reached by a run of
    complete iterations. *)
Lemma for_enumerate_raises l idx w e w' t :
  for_enumerate body idx l w = (inl e, w', t) →
  ∃ j f wj tj tf,
    l !! j = Some f
    ∧ for_enumerate body idx (take j l) w = (inr tt, wj, tj)
    ∧ body (idx + j) f wj = (inl e, w', tf)
    ∧ t = tj ++ tf.
Proof.
  revert idx w t. induction l as [|x l IH]; intros idx w t; [done|].
  simpl. unfold mbind, M_bind, bind.
  destruct (body idx x w) as [[[e1|[]] w1] t1] eqn:Hb.
  - intros [= <- <- <-]. exists 0%nat, x, w, [], t1.
    rewrite Nat.add_0_r. done.
  - destruct (for_enumerate body (S idx) l w1) as [[r2 w2] t2] eqn:Hl.
    intros [= -> -> <-].
    destruct (IH _ _ _ Hl) as (j & f & wj & tj & tf & Hj & Hpre & Hf & ->).
    exists (S j), f, wj, (t1 ++ tj), tf. split; [done|]. split.
    + simpl. unfold mbind, M_bind, bind. by rewrite Hb, Hpre.
    + replace (idx + S j)%nat with (S idx + j)%nat by lia.
      by rewrite app_assoc.
Qed.

(** A loop that completes has run the child and renamed once per
    element, in order, and has not called the encoder. *)
Lemma for_enumerate_returns l idx w w' t :
  for_enumerate body idx l w = (inr tt, w', t) →
  (renames t).*2 = frame_name <$> seq idx (length l)
  ∧ runs t = (λ f, (cmd_of f, 0)) <$> l
  ∧ systems t = [].
Proof.
  revert idx w t. induction l as [|x l IH]; intros idx w t.
  - by intros [= <- <-].
  - simpl. unfold mbind, M_bind, bind.
    destruct (body idx x w) as [[[e1|[]] w1] t1] eqn:Hb; [done|].
    destruct (for_enumerate body (S idx) l w1) as [[r2 w2] t2] eqn:Hl.
    intros [= -> -> <-].
    destruct (IH _ _ _ Hl) as (Hren & Hruns & Hsys).
    apply process_image_cases in Hb as (rc & w0 & Hup & [(_&?&_)|(-> & tr & Hr & ->)]);
      [done|].
    apply rename_step_cases in Hr
      as [(d & g & _ & _ & _ & _ & ->)|(e & ? & _)]; [|done].
    unfold renames, runs, systems in *.
    rewrite !omap_app, Hruns, Hsys. simpl.
    split_and!; [|done..]. f_equal. exact Hren.
Qed.

(** No run of the loop calls the encoder. *)
Lemma for_enumerate_systems l idx w r w' t :
  for_enumerate body idx l w = (r, w', t) → systems t = [].
Proof.
  destruct r as [e|[]].
  - intros (j & f & wj & tj & tf & _ & Hpre & Hf & ->)%for_enumerate_raises.
    apply for_enumerate_returns in Hpre as (_ & _ & Hsys).
    unfold systems in *. rewrite omap_app, Hsys. simpl.
    apply process_image_cases in Hf as (rc & w0 & Hup & [(_&_&_&->)|(-> & tr & Hr & ->)]);
      [done|].
    apply rename_step_cases in Hr
      as [(d & g & _ & _ & ? & _)|(e' & _ & _ & -> & _)]; done.
  - by intros (_ & _ & ?)%for_enumerate_returns.
Qed.

(** A loop whose iteration [j] raises after complete iterations before it
    raises there. *)
Lemma for_enumerate_stops l idx j f w wj tj e w' tf :
  l !! j = Some f →
  for_enumerate body idx (take j l) w = (inr tt, wj, tj) →
  body (idx + j) f wj = (inl e, w', tf) →
  for_enumerate body idx l w = (inl e, w', tj ++ tf).
Proof.
  intros Hj Hpre Hf.
  rewrite <- (take_drop_middle l j f Hj), for_enumerate_app.
  erewrite bind_inr by done.
  rewrite length_take_le by (apply lookup_lt_Some in Hj; lia).
  simpl. unfold mbind, M_bind, bind. by rewrite Hf.
Qed.

End Loop.

(** The encoding: the command cannot be built, or the encoder is called
    once, its status dropped. *)
Lemma encode_run out fr fps w :
  encode encoder out fr fps w
  = match ffmpeg_cmd out fr fps with
    | inl e => (inl e, w, [])
    | inr cmd =>
        (inr tt, (encoder cmd w).2,
         [Print "Merging frames into video…";
          System cmd (encoder cmd w).1;
          Print ("✅ Video saved to: " +:+ Path.join out "output_video.mp4")])
    end.
Proof.
  unfold encode. destruct (ffmpeg_cmd out fr fps) as [e|cmd]; [done|].
  unfold mbind, M_bind, bind, print, emit, system.
  by destruct (encoder cmd w) as [st w1].
Qed.

(** The encoder calls of a loop followed by the encoding. *)
Lemma encode_systems out fr fps w r w' t c st :
  encode encoder out fr fps w = (r, w', t) →
  (c, st) ∈ systems t → ffmpeg_cmd out fr fps = inr c.
Proof.
  rewrite encode_run. destruct (ffmpeg_cmd out fr fps) as [e|cmd].
  - intros [= <- <- <-]. by intros ?%not_elem_of_nil.
  - intros [= <- <- <-]. simpl. by intros [= -> _]%list_elem_of_singleton.
Qed.

(** The run of [process_images], by what it finds in the input folder. *)
Lemma process_images_missing inp out pre uf fr fps w :
  after_makedirs out w !! inp = None →
  process_images sys_executable upscaler encoder inp out pre uf fr fps w
  = (inl (FileNotFoundError inp), after_makedirs out w,
     [Makedirs out; Listdir inp]).
Proof.
  intros Hd. unfold process_images, makedirs, listdir.
  unfold mbind, M_bind, bind. by rewrite Hd.
Qed.

Lemma process_images_no_images inp out pre uf fr fps w d :
  after_makedirs out w !! inp = Some d →
  image_files (name <$> d) = [] →
  process_images sys_executable upscaler encoder inp out pre uf fr fps w
  = (inr tt, after_makedirs out w,
     [Makedirs out; Listdir inp; Print ("No images found in " +:+ inp)]).
Proof.
  intros Hd Hf. unfold process_images, makedirs, listdir.
  unfold mbind, M_bind, bind. by rewrite Hd, Hf.
Qed.

Lemma process_images_images inp out pre uf fr fps w d :
  after_makedirs out w !! inp = Some d →
  image_files (name <$> d) ≠ [] →
  process_images sys_executable upscaler encoder inp out pre uf fr fps w
  = match for_enumerate
            (process_image sys_executable upscaler inp out pre uf
                           (length (image_files (name <$> d))))
            1%nat (image_files (name <$> d)) (after_makedirs out w) with
    | (inl e, w2, t2) => (inl e, w2, Makedirs out :: Listdir inp :: t2)
    | (inr _, w2, t2) =>
        match encode encoder out fr fps w2 with
        | (r3, w3, t3) => (r3, w3, Makedirs out :: Listdir inp :: t2 ++ t3)
        end
    end.
Proof.
  intros Hd Hf. unfold process_images, makedirs, listdir.
  unfold mbind, M_bind, bind. rewrite Hd.
  destruct (image_files (name <$> d)) as [|f files] eqn:Hfiles; [done|].
  destruct (for_enumerate _ _ _ _) as [[[e|[]] w2] t2]; [done|].
  by destruct (encode _ _ _ _ _) as [[r3 w3] t3].
Qed.

End ScriptFacts.

(** ** Traces *)

Lemma systems_app t1 t2 : systems (t1 ++ t2) = systems t1 ++ systems t2.
Proof. apply omap_app. Qed.

Lemma runs_app t1 t2 : runs (t1 ++ t2) = runs t1 ++ runs t2.
Proof. apply omap_app. Qed.

Lemma renames_app t1 t2 : renames (t1 ++ t2) = renames t1 ++ renames t2.
Proof. apply omap_app. Qed.

(** An encoder call in [a ++ b] lies in [b] when [a] has none. *)
Lemma split_at_system a b t1 c st t2 :
  systems a = [] →
  a ++ b = t1 ++ System c st :: t2 →
  ∃ b1, t1 = a ++ b1 ∧ b = b1 ++ System c st :: t2.
Proof.
  revert t1. induction a as [|x a IH]; intros t1 Ha Heq.
  - by exists t1.
  - destruct t1 as [|y t1]; simplify_eq/=.
    destruct (IH t1) as (b1 & -> & ->); [by destruct y|done|].
    by exists b1.
Qed.

Lemma no_system_no_split t t1 c st t2 :
  systems t = [] → t ≠ t1 ++ System c st :: t2.
Proof.
  intros Ht ->. rewrite systems_app in Ht. simpl in Ht.
  by destruct (systems t1).
Qed.

(** ** Creating the output folder *)

Lemma lookup_mkdir_missing l w p :
  foldr mkdir_missing w l !! p
  = match w !! p with
    | Some d => Some d
    | None => if decide (p ∈ l) then Some [] else None
    end.
Proof.
  destruct (w !! p) as [d|] eqn:Hp.
  - induction l as [|q l IH]; cbn [foldr]; [done|].
    unfold mkdir_missing at 1.
    destruct (foldr mkdir_missing w l !! q) eqn:Hq; [done|].
    destruct (decide (p = q)) as [->|Hne]; [congruence|].
    by rewrite lookup_insert_ne.
  - induction l as [|q l IH]; cbn [foldr].
    { by rewrite decide_False by apply not_elem_of_nil. }
    unfold mkdir_missing at 1.
    destruct (foldr mkdir_missing w l !! q) eqn:Hq.
    + rewrite IH. destruct (decide (p ∈ l)) as [Hin|Hin].
      * by rewrite decide_True by by right.
      * rewrite decide_False; [done|].
        intros [->|?]%elem_of_cons; [congruence|done].
    + destruct (decide (p = q)) as [->|Hne].
      * rewrite lookup_insert_eq. by rewrite decide_True by left.
      * rewrite lookup_insert_ne, IH by done.
        destruct (decide (p ∈ l)) as [Hin|Hin].
        -- by rewrite decide_True by by right.
        -- rewrite decide_False; [done|]. by intros [?|?]%elem_of_cons.
Qed.

Lemma after_makedirs_lookup path w :
  after_makedirs path w !! path = Some (default [] (w !! path)).
Proof.
  unfold after_makedirs. destruct (w !! path) eqn:H; [by rewrite H|].
  rewrite lookup_mkdir_missing, H. simpl.
  rewrite decide_True; [done|]. apply elem_of_app. right. left.
Qed.

(** Creating the output folder keeps every directory as it is; what it adds
    is empty, and is the folder or one of its parents. *)
Lemma after_makedirs_keeps path w p d :
  w !! p = Some d → after_makedirs path w !! p = Some d.
Proof.
  intros Hp. unfold after_makedirs. destruct (w !! path); [done|].
  by rewrite lookup_mkdir_missing, Hp.
Qed.

Lemma after_makedirs_adds path w p :
  w !! p = None →
  after_makedirs path w !! p = None
  ∨ after_makedirs path w !! p = Some [] ∧ p ∈ parents path ++ [path].
Proof.
  intros Hp. unfold after_makedirs. destruct (w !! path); [by left|].
  rewrite lookup_mkdir_missing, Hp. case_decide; [by right|by left].
Qed.

Lemma after_makedirs_exists path w :
  is_Some (w !! path) → after_makedirs path w = w.
Proof. intros [d Hd]. unfold after_makedirs. by rewrite Hd. Qed.

Lemma image_files_nil listing :
  image_files listing = [] ↔ Forall (λ fn, ¬ is_image fn) listing.
Proof.
  unfold image_files. rewrite sorted_nil. split.
  - intros H. apply Forall_forall. intros fn Hfn Himg.
    assert (fn ∈ filter is_image listing) as Hin by by apply list_elem_of_filter.
    rewrite H in Hin. by apply not_elem_of_nil in Hin.
  - intros H. induction H as [|fn l Hfn Hl IH]; [done|].
    by rewrite filter_cons_False.
Qed.

Lemma image_files_Permutation listing :
  image_files listing ≡ₚ filter is_image listing.
Proof. apply sorted_Permutation. Qed.

Lemma image_files_sorted listing :
  StronglySorted (λ a b, String.leb a b = true) (image_files listing).
Proof.
  apply (sorted_StronglySorted String.leb id).
  - apply String.leb_total.
  - intros x y z Hxy Hyz.
    apply Is_true_true. apply Is_true_true in Hxy, Hyz.
    by etrans.
Qed.

(** ** The loop with an upscaler that keeps its contract *)

Section Contract.
Variable sys_executable : string.
Variable upscaler : list string → fs → Z * fs.
Variables (inp out : string) (pre : option string) (uf : Z) (total : nat).
Variable content : string → string.
Hypothesis contract : keeps_contract sys_executable upscaler out pre uf content.

Let body := process_image sys_executable upscaler inp out pre uf total.

(** One iteration with an upscaler that keeps its contract: the frame of the
    position is there, alone under its name and made of the image, and the
    entries under other names that were alone under theirs still are. *)
Lemma process_image_deposits idx f w d :
  w !! out = Some d →
  ∃ w' t d' m,
    body idx f w = (inr tt, w', t)
    ∧ w' !! out = Some d'
    ∧ named (frame_name idx) d'
      = [Entry (frame_name idx) m (content (Path.join inp f))]
    ∧ ∀ fn x, fn ≠ frame_name idx → named fn d = [x] → named fn d' = [x].
Proof.
  intros Hd.
  destruct (contract (Path.join inp f) w d Hd)
    as (e & d1 & w1 & Hup & Hd1 & Hperm & Hpng & Hfresh & Hnew & Hdata).
  assert (named (name e) d1 = [e]) as Hu.
  { apply Permutation_singleton_r. unfold named. rewrite Hperm.
    rewrite filter_cons_True by done. fold (named (name e) d).
    by rewrite named_nil. }
  assert (newest d1 = Some (name e)) as Hg.
  { apply newest_strict; [done..|]. intros e0 Hin Hne Hp.
    rewrite Hperm in Hin. apply elem_of_cons in Hin as [->|Hin]; [done|].
    by apply Hnew. }
  eexists _, _, (rename_in (name e) (frame_name idx) d1), (mtime e).
  split_and!.
  - unfold body, process_image, print, emit, subprocess_run.
    unfold mbind, M_bind, bind. rewrite Hup. simpl.
    rewrite (rename_step_run _ _ _ d1 Hd1), Hg. reflexivity.
  - by rewrite lookup_insert_eq.
  - rewrite <- Hdata. destruct (decide (name e = frame_name idx)) as [Heq|Hne].
    + rewrite <- Heq, rename_in_same, Hu. by destruct e.
    + rewrite named_rename_in_target, Hu by done. done.
  - intros fn x Hfn Hx.
    assert (fn ≠ name e) as Hfe.
    { intros ->. destruct Hfresh.
      assert (x ∈ named (name e) d) as [<- ?]%list_elem_of_filter
        by (rewrite Hx; left).
      by apply list_elem_of_fmap_2. }
    rewrite named_rename_in_other by done.
    apply Permutation_singleton_r. unfold named. rewrite Hperm.
    rewrite filter_cons_False by done. fold (named fn d). by rewrite Hx.
Qed.

(** The loop with an upscaler that keeps its contract completes, with one
    frame per element, each alone under its name and made of its image. *)
Lemma for_enumerate_deposits l idx w d :
  w !! out = Some d →
  ∃ w' t d',
    for_enumerate body idx l w = (inr tt, w', t)
    ∧ w' !! out = Some d'
    ∧ (∀ k f, l !! k = Some f →
         ∃ m, named (frame_name (idx + k)) d'
              = [Entry (frame_name (idx + k)) m (content (Path.join inp f))])
    ∧ (∀ j x, (j < idx)%nat →
         named (frame_name j) d = [x] → named (frame_name j) d' = [x]).
Proof.
  revert idx w d. induction l as [|f l IH]; intros idx w d Hd.
  - exists w, [], d. split_and!; [done..| |done]. intros k f Hk. done.
  - destruct (process_image_deposits idx f w d Hd)
      as (w1 & t1 & d1 & m & Hb & Hd1 & Hframe & Hkeep).
    destruct (IH (S idx) w1 d1 Hd1) as (w2 & t2 & d2 & Hl & Hd2 & Hframes & Hkeep2).
    exists w2, (t1 ++ t2), d2. split_and!.
    + simpl. unfold mbind, M_bind, bind. fold body. by rewrite Hb, Hl.
    + done.
    + intros [|k] f' Hk; simplify_eq/=.
      * exists m. rewrite Nat.add_0_r. apply Hkeep2; [lia|done].
      * replace (idx + S k)%nat with (S idx + k)%nat by lia. by apply Hframes.
    + intros j x Hj Hx. apply Hkeep2; [lia|]. apply Hkeep; [|done].
      intros Heq%frame_name_inj. lia.
Qed.

End Contract.

(** ** The upscaler of the concrete runs keeps the contract *)

Lemma lower_app s1 s2 : Str.lower (s1 +:+ s2) = Str.lower s1 +:+ Str.lower s2.
Proof.
  induction s1 as [|c s1 IH]; [done|].
  rewrite append_cons. simpl. by rewrite IH.
Qed.

Lemma lower_zeros k : Str.lower (Str.zeros k) = Str.zeros k.
Proof. induction k as [|k IH]; simpl; [done|]. by rewrite IH. Qed.

Lemma drop_app_length s1 s2 : Str.drop (String.length s1) (s1 +:+ s2) = s2.
Proof. induction s1 as [|c s1 IH]; [by destruct s2|]. by rewrite append_cons. Qed.

Lemma endswith_app s p : Str.endswith (s +:+ p) p = true.
Proof.
  unfold Str.endswith. rewrite string_length_app.
  replace (String.length s + String.length p - String.length p)%nat
    with (String.length s) by lia.
  rewrite drop_app_length, String.eqb_refl, andb_true_r.
  apply Nat.leb_le. lia.
Qed.

Lemma longest_name_ge d e :
  e ∈ d → (String.length (name e) ≤ longest_name d)%nat.
Proof.
  unfold longest_name.
  induction 1 as [|x y d Hd IH]; rewrite fmap_cons; cbn [foldr]; lia.
Qed.

Lemma latest_mtime_ge d e : e ∈ d → mtime e ≤ latest_mtime d.
Proof.
  unfold latest_mtime.
  induction 1 as [|x y d Hd IH]; rewrite fmap_cons; cbn [foldr]; lia.
Qed.

Lemma depositing_upscaler_keeps_contract :
  keeps_contract "python" depositing_upscaler "out" None 2
                 (λ path, "upscaled " +:+ path).
Proof.
  intros path w d Hd.
  set (e := Entry ("fooocus_" +:+ Str.zeros (longest_name d) +:+ ".png")
                  (1 + latest_mtime d) ("upscaled " +:+ path)).
  exists e, (d ++ [e]), (<["out" := (d ++ [e])]> w). split_and!.
  - unfold depositing_upscaler.
    change (arg_after "--output-path" (upscale_cmd "python" "out" None 2 path))
      with "out".
    by rewrite Hd.
  - by rewrite lookup_insert_eq.
  - by rewrite (comm (++)).
  - unfold is_png.
    change (name e)
      with (("fooocus_" +:+ Str.zeros (longest_name d)) +:+ ".png").
    rewrite lower_app. apply endswith_app.
  - intros (e0 & Hn & He0)%list_elem_of_fmap.
    apply longest_name_ge in He0. rewrite <- Hn in He0. simpl in He0.
    rewrite !string_length_app, length_zeros in He0. simpl in He0. lia.
  - intros e0 He0 _. apply latest_mtime_ge in He0. simpl. lia.
  - done.
Qed.

(** * The claims *)

Section Claims.
Variable sys_executable : string.
Variable upscaler : list string → fs → Z * fs.
Variable encoder : string → fs → Z * fs.

Local Abbreviation process_images :=
  (process_images sys_executable upscaler encoder).
Local Abbreviation process_image := (process_image sys_executable upscaler).
Local Abbreviation upscale_cmd := (upscale_cmd sys_executable).


(** C3.  When the upscaler invocation for the image at position [k + 1]
    (the [k]-th child process of the run, counting from 0) exits with a
    non-zero status, the run raises [CalledProcessError] there.  That child
    process is the last event of the run: exactly [k + 1] child processes ran
    (no retry), the renames made are those of the frames [1..k] and no other
    (no frame from position [k + 1] on), the encoder is not called (no video),
    and the file system of the run is the one the failing child left when
    started after the [k] complete iterations (no clean-up). *)
Theorem upscaler_failure_aborts_the_run inp out pre uf fr fps w r w' t k cmd rc :
  process_images inp out pre uf fr fps w = (r, w', t) →
  runs t !! k = Some (cmd, rc) →
  rc ≠ 0 →
  r = inl (CalledProcessError rc cmd)
  ∧ last t = Some (SubprocessRun cmd rc)
  ∧ length (runs t) = S k
  ∧ (renames t).*2 = frame_name <$> seq 1 k
  ∧ systems t = []
  ∧ ∃ d f wk tk,
      after_makedirs out w !! inp = Some d
      ∧ image_files (name <$> d) !! k = Some f
      ∧ cmd = upscale_cmd out pre uf (Path.join inp f)
      ∧ for_enumerate
          (process_image inp out pre uf (length (image_files (name <$> d))))
          1%nat (take k (image_files (name <$> d))) (after_makedirs out w)
        = (inr tt, wk, tk)
      ∧ upscaler cmd wk = (rc, w').
Proof.
  intros Hrun Hk Hrc.
  destruct (after_makedirs out w !! inp) as [d|] eqn:Hd;
    [|by rewrite process_images_missing in Hrun by done; simplify_eq].
  destruct (decide (image_files (name <$> d) = [])) as [Hf|Hf];
    [by rewrite (process_images_no_images _ _ _ _ _ _ _ _ _ _ d Hd Hf) in Hrun;
        simplify_eq|].
  rewrite (process_images_images _ _ _ _ _ _ _ _ _ _ d Hd Hf) in Hrun.
  set (files := image_files (name <$> d)) in *.
  destruct (for_enumerate _ _ _ _) as [[[e|[]] w2] t2] eqn:Hloop.
  - injection Hrun as <- <- <-.
    apply for_enumerate_raises in Hloop
      as (j & f & wj & tj & tf & Hj & Hpre & Hbody & ->).
    pose proof (lookup_lt_Some _ _ _ Hj) as Hlt.
    pose proof Hpre as (Hren & Hruns & Hsys)%for_enumerate_returns.
    rewrite length_take_le in Hren by lia.
    apply process_image_cases in Hbody
      as (rc' & w0 & Hup & [(Hrc' & -> & -> & ->)|(-> & tr & Hr & ->)]).
    + change (runs (Makedirs out :: Listdir inp :: ?u)) with (runs u) in *.
      change (renames (Makedirs out :: Listdir inp :: ?u)) with (renames u) in *.
      change (systems (Makedirs out :: Listdir inp :: ?u)) with (systems u) in *.
      rewrite runs_app, Hruns in Hk |- *. simpl in Hk |- *.
      assert (k = j) as ->.
      { destruct (decide (k < j)%nat) as [Hkj|Hkj].
        - rewrite lookup_app_l in Hk by (rewrite length_fmap, length_take_le; lia).
          rewrite list_lookup_fmap in Hk.
          destruct (take j files !! k); simplify_eq/=.
        - apply lookup_lt_Some in Hk.
          rewrite length_app, length_fmap, length_take_le in Hk by lia.
          simpl in Hk. lia. }
      rewrite lookup_app_r in Hk by (rewrite length_fmap, length_take_le; lia).
      rewrite length_fmap, length_take_le, Nat.sub_diag in Hk by lia.
      injection Hk as <- <-.
      split_and!.
      * done.
      * by rewrite !app_comm_cons, last_app_cons.
      * rewrite length_app, length_fmap, length_take_le by lia. simpl. lia.
      * rewrite renames_app, fmap_app, Hren. simpl. by rewrite app_nil_r.
      * rewrite systems_app, Hsys. done.
      * by exists d, f, wj, tj.
    + apply rename_step_cases in Hr
        as [(? & ? & _ & _ & ? & _)|(e' & _ & _ & -> & _)]; [done|].
      change (runs (Makedirs out :: Listdir inp :: ?u)) with (runs u) in *.
      rewrite runs_app, Hruns in Hk. simpl in Hk.
      apply list_elem_of_lookup_2, elem_of_app in Hk as [Hk|Hk].
      * apply list_elem_of_fmap in Hk as (? & [= _ ->] & _). done.
      * apply list_elem_of_singleton in Hk as [= _ ->]. done.
  - apply for_enumerate_returns in Hloop as (_ & Hruns & _).
    rewrite encode_run in Hrun.
    destruct (ffmpeg_cmd out fr fps); simplify_eq/=;
      change (runs (Makedirs out :: Listdir inp :: ?u)) with (runs u) in *;
      rewrite runs_app, Hruns in Hk; simpl in Hk; rewrite app_nil_r in Hk;
      apply list_elem_of_lookup_2, list_elem_of_fmap in Hk as (? & [= _ ->] & _);
      done.
Qed.


(** C5.  A run of [process_images] calls the encoder at most once, and
    exactly once when images were found and the run returns normally.  When
    it is called, images were found, every rename has been made by then (one
    per image, to the frame names in order), and neither a rename nor a child
    process follows. *)
Theorem encoder_called_once_after_all_renames inp out pre uf fr fps w r w' t :
  process_images inp out pre uf fr fps w = (r, w', t) →
  (length (systems t) ≤ 1)%nat
  ∧ (∀ t1 c st t2,
       t = t1 ++ System c st :: t2 →
       ∃ d, after_makedirs out w !! inp = Some d
            ∧ image_files (name <$> d) ≠ []
            ∧ (renames t1).*2
              = frame_name <$> seq 1 (length (image_files (name <$> d)))
            ∧ renames t2 = [] ∧ runs t2 = [])
  ∧ (∀ d, after_makedirs out w !! inp = Some d →
          image_files (name <$> d) ≠ [] →
          r = inr tt → length (systems t) = 1%nat).
Proof.
  intros Hrun.
  destruct (after_makedirs out w !! inp) as [d|] eqn:Hd; last first.
  { rewrite process_images_missing in Hrun by done. simplify_eq.
    split_and!; [simpl; lia| |done].
    intros t1 c st t2 Heq. by apply no_system_no_split in Heq. }
  destruct (decide (image_files (name <$> d) = [])) as [Hf|Hf].
  { rewrite (process_images_no_images _ _ _ _ _ _ _ _ _ _ d Hd Hf) in Hrun.
    simplify_eq. split_and!; [simpl; lia| |by intros ? [= <-]].
    intros t1 c st t2 Heq. by apply no_system_no_split in Heq. }
  rewrite (process_images_images _ _ _ _ _ _ _ _ _ _ d Hd Hf) in Hrun.
  destruct (for_enumerate _ _ _ _) as [[[e|[]] w2] t2] eqn:Hloop.
  { simplify_eq. pose proof (for_enumerate_systems _ _ _ _ _ _ _ _ _ _ _ _ _ Hloop) as Hsys.
    change (systems (Makedirs out :: Listdir inp :: t2)) with (systems t2).
    rewrite Hsys. split_and!; [simpl; lia| |done].
    intros t1 c st t3 Heq. by apply no_system_no_split in Heq. }
  pose proof Hloop as (Hren & Hruns & Hsys)%for_enumerate_returns.
  rewrite encode_run in Hrun.
  destruct (ffmpeg_cmd out fr fps) as [e|cmd].
  { simplify_eq. rewrite app_nil_r.
    change (systems (Makedirs out :: Listdir inp :: t2)) with (systems t2).
    rewrite Hsys. split_and!; [simpl; lia| |done].
    intros t1 c st t3 Heq. by apply no_system_no_split in Heq. }
  injection Hrun as <- <- <-.
  change (systems (Makedirs out :: Listdir inp :: ?u)) with (systems u).
  rewrite systems_app, Hsys. split_and!; [simpl; lia| |done].
  intros t1 c st t3 Heq.
  apply (split_at_system (Makedirs out :: Listdir inp :: t2)) in Heq
    as (b1 & -> & Hb); [|done].
  destruct b1 as [|x1 [|x2 [|x3 [|x4 b1]]]]; simplify_eq/=.
  exists d. split_and!; [done..| |done|done].
  change (renames (Makedirs out :: Listdir inp :: ?u)) with (renames u).
  rewrite renames_app, fmap_app, Hren. simpl. by rewrite app_nil_r.
Qed.

(** C6, amended.  The rename step is what follows each upscaler invocation
    that exits with status 0 ([process_image_cases]).  With the output folder
    in place and holding a name that ends in [.png] whatever the case, the
    rename step for position [idx] lists the folder and selects such a name,
    [g], whose modification time is greatest among them.  It makes one
    rename, of [g] to the frame name of [idx].  Afterwards the file that was
    called [g] carries the frame name, with its modification time and
    content; whatever carries the frame name came from [g], so a file
    already called so has been replaced; the name [g] is free unless it is
    the frame name; every entry called neither [g] nor the frame name is
    there as before, and so is every other folder. *)
Theorem rename_step_renames_newest_png out idx w d :
  w !! out = Some d →
  filter is_png (name <$> d) ≠ [] →
  ∃ g d',
    g ∈ name <$> d ∧ is_png g
    ∧ (∀ fn, fn ∈ name <$> d → is_png fn → mtime_of d fn ≤ mtime_of d g)
    ∧ rename_step out idx w
      = (inr tt, <[out := d']> w, [Listdir out; Rename g (frame_name idx)])
    ∧ (∀ e, e ∈ d → name e = g →
            Entry (frame_name idx) (mtime e) (data e) ∈ d')
    ∧ (∀ e', e' ∈ d' → name e' = frame_name idx →
             ∃ e, e ∈ d ∧ name e = g
                  ∧ e' = Entry (frame_name idx) (mtime e) (data e))
    ∧ (g ≠ frame_name idx → g ∉ name <$> d')
    ∧ (∀ e, name e ≠ g → name e ≠ frame_name idx → e ∈ d' ↔ e ∈ d)
    ∧ (∀ p, p ≠ out → <[out := d']> w !! p = w !! p).
Proof.
  intros Hd Hpng.
  destruct (newest d) as [g|] eqn:Hg; [|by apply newest_None in Hg].
  exists g, (rename_in g (frame_name idx) d).
  pose proof (newest_elem_of _ _ Hg) as [Hin Hgpng].
  split_and!; [done|done| | | | | | |].
  - intros fn Hfn Hfpng. by apply newest_max.
  - by rewrite (rename_step_run _ _ _ d Hd), Hg.
  - intros e He Hn. by apply rename_in_moved.
  - intros e' He' Hn. by apply rename_in_target.
  - apply rename_in_source_gone.
  - intros e Hs Ht. by apply rename_in_other.
  - intros p Hp. by rewrite lookup_insert_ne.
Qed.

(** C7, amended.  For a [framerate] other than 0 the encoder command reads
    [ffmpeg -framerate R -i <out>/frame_%03d.png -c:v libx264 -r F ...], where
    [F] is the decimal text of [video_fps] and [R] is [1 / framerate] printed
    with six decimals: the number [R] denotes is within half a millionth of
    [1 / framerate], and is not that quotient in general.  It is the command
    of every encoder call of [process_images].  For [framerate = 2] and
    [video_fps = 24] the two texts are [0.500000], which denotes [1/2]
    exactly, and [24]. *)
Theorem encoder_rates inp out pre uf fr fps :
  fr ≠ 0 →
  (∃ x,
     Float.truediv_1 fr = Some x
     ∧ ffmpeg_cmd out fr fps
       = inr ("ffmpeg -framerate " +:+ Float.format_6f x
              +:+ " -i " +:+ out +:+ "/frame_%03d.png -c:v libx264 -r "
              +:+ Str.of_Z fps +:+ " -pix_fmt yuv420p "
              +:+ Path.join out "output_video.mp4")
     ∧ (Qabs (Float.printed_value x - 1 / inject_Z fr) <= 1 # 2000000)%Q
     ∧ Z.of_int <$> NilZero.int_of_string (Str.of_Z fps) = Some fps)
  ∧ (∀ w r w' t c st,
       process_images inp out pre uf fr fps w = (r, w', t) →
       (c, st) ∈ systems t → ffmpeg_cmd out fr fps = inr c)
  ∧ (∃ x, Float.truediv_1 2 = Some x
          ∧ Float.format_6f x = "0.500000"
          ∧ (Float.printed_value x == 1 / inject_Z 2)%Q
          ∧ Str.of_Z 24 = "24").
Proof.
  intros Hfr. split_and!.
  - destruct (Float.truediv_1 fr) as [x|] eqn:Hx; last first.
    { unfold Float.truediv_1 in Hx. by destruct (Z.eqb_spec fr 0). }
    exists x. split_and!; [done| | |].
    + unfold ffmpeg_cmd. by rewrite Hx.
    + by apply printed_value_close.
    + apply of_Z_parse.
  - intros w r w' t c st Hrun Hc.
    destruct (after_makedirs out w !! inp) as [d|] eqn:Hd; last first.
    { rewrite process_images_missing in Hrun by done. simplify_eq.
      by apply not_elem_of_nil in Hc. }
    destruct (decide (image_files (name <$> d) = [])) as [Hf|Hf].
    { rewrite (process_images_no_images _ _ _ _ _ _ _ _ _ _ d Hd Hf) in Hrun.
      simplify_eq. by apply not_elem_of_nil in Hc. }
    rewrite (process_images_images _ _ _ _ _ _ _ _ _ _ d Hd Hf) in Hrun.
    destruct (for_enumerate _ _ _ _) as [[[e|[]] w2] t2] eqn:Hloop;
      apply for_enumerate_systems in Hloop.
    { simplify_eq.
      change (systems (Makedirs out :: Listdir inp :: t2)) with (systems t2) in Hc.
      rewrite Hloop in Hc. by apply not_elem_of_nil in Hc. }
    destruct (encode _ _ _ _ _) as [[r3 w3] t3] eqn:Henc. simplify_eq.
    change (systems (Makedirs out :: Listdir inp :: ?u)) with (systems u) in Hc.
    rewrite systems_app, Hloop in Hc. by eapply encode_systems.
  - eexists. split; [reflexivity|]. done.
Qed.


(** C9.  With the output folder in place, the rename step succeeds exactly
    when the folder holds a name ending in [.png]; with none it raises
    [IndexError], renames nothing and leaves the file system alone.  So a run
    of [process_images] whose upscaler, for some image, exits with status 0
    and leaves the output folder without a PNG ends there with [IndexError]:
    the last events are that child process and the listing of the folder. *)
Theorem rename_step_needs_a_png inp out pre uf fr fps :
  (∀ idx w d,
     w !! out = Some d →
     (filter is_png (name <$> d) = [] →
      rename_step out idx w = (inl IndexError, w, [Listdir out]))
     ∧ (filter is_png (name <$> d) ≠ [] →
        ∃ g w', rename_step out idx w
                = (inr tt, w', [Listdir out; Rename g (frame_name idx)])))
  ∧ ∀ w d j f wj tj w1 d1,
      after_makedirs out w !! inp = Some d →
      image_files (name <$> d) !! j = Some f →
      for_enumerate
        (process_image inp out pre uf (length (image_files (name <$> d))))
        1%nat (take j (image_files (name <$> d))) (after_makedirs out w)
      = (inr tt, wj, tj) →
      upscaler (upscale_cmd out pre uf (Path.join inp f)) wj = (0, w1) →
      w1 !! out = Some d1 →
      filter is_png (name <$> d1) = [] →
      process_images inp out pre uf fr fps w
      = (inl IndexError, w1,
         Makedirs out :: Listdir inp
         :: tj ++ [Print (progress_line (length (image_files (name <$> d)))
                                        (S j) f);
                   SubprocessRun (upscale_cmd out pre uf (Path.join inp f)) 0;
                   Listdir out]).
Proof.
  split.
  - intros idx w d Hd. rewrite (rename_step_run _ _ _ d Hd). split.
    + intros Hnone%newest_None. by rewrite Hnone.
    + intros Hsome. destruct (newest d) as [g|] eqn:Hg.
      * by eexists _, _.
      * by apply newest_None in Hg.
  - intros w d j f wj tj w1 d1 Hd Hj Hpre Hup Hd1 Hnone.
    assert (image_files (name <$> d) ≠ []) as Hf by by intros Heq; rewrite Heq in Hj.
    rewrite (process_images_images _ _ _ _ _ _ _ _ _ _ d Hd Hf).
    erewrite for_enumerate_stops; [reflexivity|exact Hj|exact Hpre|].
    by apply (process_image_no_png _ _ _ _ _ _ _ _ _ _ _ d1).
Qed.

(** C10.  The encoder command is built for every positive [framerate], and
    building it for [framerate = 0], a value the namespace admits, raises
    [ZeroDivisionError].  In a run with [framerate = 0] the encoder is never
    called; when the loop over the images completes, the run ends with that
    error, the file system and the trace being those of the loop. *)
Theorem zero_framerate_raises_before_encoding out fps :
  (∀ fr, 0 < fr → ∃ cmd, ffmpeg_cmd out fr fps = inr cmd)
  ∧ ffmpeg_cmd out 0 fps = inl ZeroDivisionError
  ∧ ∀ (args : Namespace) w r w' t,
      framerate args = 0 →
      main sys_executable upscaler encoder args w = (r, w', t) →
      systems t = []
      ∧ ∀ d w2 t2,
          after_makedirs (output_folder args) w !! input_folder args = Some d →
          image_files (name <$> d) ≠ [] →
          for_enumerate
            (process_image (input_folder args) (output_folder args)
               (preset args) (upscale_factor args)
               (length (image_files (name <$> d))))
            1%nat (image_files (name <$> d))
            (after_makedirs (output_folder args) w) = (inr tt, w2, t2) →
          r = inl ZeroDivisionError ∧ w' = w2
          ∧ t = Makedirs (output_folder args)
                :: Listdir (input_folder args) :: t2.
Proof.
  split_and!.
  - intros fr Hfr. unfold ffmpeg_cmd, Float.truediv_1.
    destruct (Z.eqb_spec fr 0); [lia|]. by eexists.
  - done.
  - intros [inp outf pre uf fr vfps] w r w' t. simpl. intros -> Hrun.
    unfold main in Hrun. simpl in Hrun.
    destruct (after_makedirs outf w !! inp) as [d|] eqn:Hd.
    + destruct (decide (image_files (name <$> d) = [])) as [Hf|Hf].
      * rewrite (process_images_no_images _ _ _ _ _ _ _ _ _ _ d Hd Hf) in Hrun.
        simplify_eq. split; [done|]. intros d' w2 t2 [= <-]. done.
      * rewrite (process_images_images _ _ _ _ _ _ _ _ _ _ d Hd Hf) in Hrun.
        destruct (for_enumerate _ _ _ _) as [[[e|[]] w2] t2] eqn:Hloop.
        -- simplify_eq. split.
           ++ apply for_enumerate_systems in Hloop. done.
           ++ intros d' w3 t3 [= <-] _ Hloop'. congruence.
        -- rewrite encode_run in Hrun. simpl in Hrun. simplify_eq. split.
           ++ apply for_enumerate_systems in Hloop.
              unfold systems in *. simpl. by rewrite app_nil_r.
           ++ intros d' w3 t3 [= <-] _ Hloop'. rewrite Hloop in Hloop'.
              simplify_eq. by rewrite app_nil_r.
    + rewrite process_images_missing in Hrun by done. simplify_eq.
      split; [done|]. intros d' w2 t2 ?. congruence.
Qed.

End Claims.

(** ** The claims on concrete runs *)


(** C2.  On the spec's example folder, with an upscaler that keeps its
    contract and an encoder whose shell returns any status [st] (a failure
    when [st] is not 0), [process_images] calls the encoder, drops the status
    and returns normally, after printing that the video was saved. *)
Theorem encoder_status_is_dropped (st : Z) :
  ∃ w' t0,
    process_images "python" depositing_upscaler (exiting_encoder st)
                   "in" "out" None 2 1 30 three_images
    = (inr tt, w',
       t0 ++ [System ("ffmpeg -framerate 1.000000 -i out/frame_%03d.png "
                      +:+ "-c:v libx264 -r 30 -pix_fmt yuv420p "
                      +:+ "out/output_video.mp4") st;
              Print "✅ Video saved to: out/output_video.mp4"])
    ∧ systems t0 = [].
Proof.
  eexists _, (_ :: _ :: _ :: _ :: _ :: _ :: _ :: _ :: _ :: _
              :: _ :: _ :: _ :: _ :: [_]).
  split; vm_compute; reflexivity.
Qed.

(** C3 on the spec's example folder, the upscaler failing on the second
    image. *)
Lemma upscaler_failure_aborts_the_run_witness :
  ∃ w' t,
    process_images "python" (upscaler_failing_on "in/b.jpg" 1)
                   (exiting_encoder 0) "in" "out" None 2 1 30 three_images
    = (inl (CalledProcessError 1 (upscale_cmd "python" "out" None 2 "in/b.jpg")),
       w', t)
    ∧ (renames t).*2 = ["frame_001.png"]
    ∧ systems t = []
    ∧ w' !! "out" = Some [Entry "frame_001.png" 1 "upscaled in/a.png"].
Proof.
  eexists _, _.
  edestruct (upscaler_failure_aborts_the_run
               "python" (upscaler_failing_on "in/b.jpg" 1) (exiting_encoder 0)
               "in" "out" None 2 1 30 three_images)
    with (k := 1%nat) as (Hr & _ & _ & Hren & Hsys & _).
  - vm_compute. reflexivity.
  - vm_compute. reflexivity.
  - lia.
  - split; [reflexivity|]. split; [exact Hren|]. split; [exact Hsys|].
    vm_compute. reflexivity.
Defined.


(** C5 on the spec's example folder. *)
Lemma encoder_called_once_after_all_renames_witness :
  ∃ t,
    (process_images "python" depositing_upscaler (exiting_encoder 0)
                    "in" "out" None 2 2 24 three_images).2 = t
    ∧ length (systems t) = 1%nat
    ∧ ∀ t1 c st t2,
        t = t1 ++ System c st :: t2 →
        (renames t1).*2 = ["frame_001.png"; "frame_002.png"; "frame_003.png"]
        ∧ renames t2 = [] ∧ runs t2 = [].
Proof.
  eexists.
  edestruct (encoder_called_once_after_all_renames
               "python" depositing_upscaler (exiting_encoder 0)
               "in" "out" None 2 2 24 three_images)
    as (_ & Hafter & Honce).
  - vm_compute. reflexivity.
  - split; [reflexivity|]. split.
    + eapply Honce; [reflexivity|compute_done|reflexivity].
    + intros t1 c st t2 Heq.
      destruct (Hafter t1 c st t2 Heq) as (d & Hd & _ & Hren & Ht2).
      injection Hd as <-. split; [exact Hren|exact Ht2].
Defined.

(** C6 as stated fails: a frame of an earlier run, which is not the file the
    step selects, is replaced by the rename. *)
Lemma stale_frame_is_replaced :
  let d := [Entry "frame_001.png" 1 "frame of an earlier run";
            Entry "fooocus.png" 2 "new image"] in
  rename_step "out" 1 {[ "out" := d ]}
  = (inr tt, {[ "out" := [Entry "frame_001.png" 2 "new image"] ]},
     [Listdir "out"; Rename "fooocus.png" "frame_001.png"])
  ∧ newest d = Some "fooocus.png"
  ∧ Entry "frame_001.png" 1 "frame of an earlier run" ∈ d
  ∧ Entry "frame_001.png" 1 "frame of an earlier run"
    ∉ [Entry "frame_001.png" 2 "new image"].
Proof.
  split_and!.
  - vm_compute. reflexivity.
  - reflexivity.
  - compute_done.
  - compute_done.
Qed.

(** C6, amended, on a folder with two PNG files and a text file. *)
Lemma rename_step_renames_newest_png_witness :
  ∃ g d',
    rename_step "out" 2
      {[ "out" := [Entry "frame_001.png" 5 "one"; Entry "log.txt" 9 "log";
                   Entry "Fooocus.PNG" 7 "two"] ]}
    = (inr tt, <["out" := d']> {[ "out" := [Entry "frame_001.png" 5 "one";
                                             Entry "log.txt" 9 "log";
                                             Entry "Fooocus.PNG" 7 "two"] ]},
       [Listdir "out"; Rename g "frame_002.png"])
    ∧ g = "Fooocus.PNG"
    ∧ Entry "frame_001.png" 5 "one" ∈ d'.
Proof.
  destruct (rename_step_renames_newest_png "out" 2
              {[ "out" := [Entry "frame_001.png" 5 "one";
                           Entry "log.txt" 9 "log";
                           Entry "Fooocus.PNG" 7 "two"] ]}
              [Entry "frame_001.png" 5 "one"; Entry "log.txt" 9 "log";
               Entry "Fooocus.PNG" 7 "two"])
    as (g & d' & _ & _ & _ & Hrun & _ & _ & _ & Hother & _).
  - reflexivity.
  - compute_done.
  - exists g, d'. split; [exact Hrun|].
    assert (g = "Fooocus.PNG") as Hg.
    { vm_compute in Hrun. by injection Hrun as _ ->. }
    split; [exact Hg|]. apply Hother; [by rewrite Hg| |compute_done].
    vm_compute. discriminate.
Defined.

(** C7 as stated fails: with [--framerate 3] the encoder is called with the
    input rate [0.333333], which is not [1/3]. *)
Lemma one_third_is_not_passed_exactly :
  systems (process_images "python" depositing_upscaler (exiting_encoder 0)
                          "in" "out" None 2 3 24 three_images).2
  = [("ffmpeg -framerate 0.333333 -i out/frame_%03d.png -c:v libx264 -r 24 "
      +:+ "-pix_fmt yuv420p out/output_video.mp4", 0)]
  ∧ ∃ x, Float.truediv_1 3 = Some x
         ∧ Float.format_6f x = "0.333333"
         ∧ ¬ (Float.printed_value x == 1 / inject_Z 3)%Q.
Proof.
  split; [by vm_compute|].
  eexists. split; [reflexivity|]. split; [reflexivity|]. by vm_compute.
Qed.

(** C7, amended, for [--framerate 3 --video_fps 24]. *)
Lemma encoder_rates_witness :
  ∃ x, Float.truediv_1 3 = Some x
       ∧ ffmpeg_cmd "out" 3 24
         = inr ("ffmpeg -framerate 0.333333 -i out/frame_%03d.png "
                +:+ "-c:v libx264 -r 24 -pix_fmt yuv420p out/output_video.mp4")
       ∧ (Qabs (Float.printed_value x - 1 / inject_Z 3) <= 1 # 2000000)%Q.
Proof.
  destruct (encoder_rates "python" depositing_upscaler (exiting_encoder 0)
              "in" "out" None 2 3 24) as ((x & Hx & Hcmd & Hclose & _) & _).
  - lia.
  - exists x. split; [exact Hx|]. split; [|exact Hclose].
    rewrite Hcmd. vm_compute in Hx. injection Hx as <-. reflexivity.
Defined.


(** C9 on the spec's example folder, with an upscaler that writes nothing. *)
Lemma rename_step_needs_a_png_witness :
  process_images "python" idle_upscaler (exiting_encoder 0)
                 "in" "out" None 2 1 30 three_images
  = (inl IndexError, after_makedirs "out" three_images,
     [Makedirs "out"; Listdir "in";
      Print "[1/3] Processing a.png → frame_001.png";
      SubprocessRun (upscale_cmd "python" "out" None 2 "in/a.png") 0;
      Listdir "out"]).
Proof.
  destruct (rename_step_needs_a_png "python" idle_upscaler (exiting_encoder 0)
              "in" "out" None 2 1 30) as [_ Hrun].
  apply (Hrun three_images
           [Entry "b.jpg" 12 "B"; Entry "a.png" 11 "A";
            Entry "c.bmp" 10 "C"; Entry "notes.txt" 13 "N"]
           0%nat "a.png" (after_makedirs "out" three_images) []
           (after_makedirs "out" three_images) []);
    reflexivity.
Defined.

(** C10 on the spec's example folder, with [--framerate 0]. *)
Lemma zero_framerate_raises_before_encoding_witness :
  (∃ cmd, ffmpeg_cmd "out" 2 24 = inr cmd)
  ∧ ∃ w' t,
      main "python" depositing_upscaler (exiting_encoder 0)
           {| input_folder := "in"; output_folder := "out"; preset := None;
              upscale_factor := 2; framerate := 0; video_fps := 24 |}
           three_images
      = (inl ZeroDivisionError, w', t)
      ∧ systems t = [].
Proof.
  destruct (zero_framerate_raises_before_encoding
              "python" depositing_upscaler (exiting_encoder 0) "out" 24)
    as (Hpos & _ & Hrun).
  split; [apply Hpos; lia|].
  eexists _, _.
  edestruct (Hrun {| input_folder := "in"; output_folder := "out";
                     preset := None; upscale_factor := 2; framerate := 0;
                     video_fps := 24 |} three_images) as [Hsys Hloop].
  - reflexivity.
  - vm_compute. reflexivity.
  - split; [reflexivity|]. vm_compute. reflexivity.
Defined.

(** * Further properties of the script *)

(** ** The order of the listing *)

Lemma image_files_of_Permutation l1 l2 :
  l1 ≡ₚ l2 → image_files l1 = image_files l2.
Proof.
  intros Hp.
  apply (StronglySorted_unique_strong (λ a b, String.leb a b = true)).
  - intros x y _ _. apply String.leb_antisym.
  - apply image_files_sorted.
  - apply image_files_sorted.
  - by rewrite !image_files_Permutation, Hp.
Qed.

Lemma image_files_all_images listing :
  Forall is_image (image_files listing).
Proof.
  apply Forall_forall. intros f Hf.
  rewrite image_files_Permutation in Hf.
  by apply list_elem_of_filter in Hf as [? _].
Qed.

Lemma filter_all {A} (P : A → Prop) `{!∀ x, Decision (P x)} l :
  Forall P l → filter P l = l.
Proof.
  induction 1 as [|x l Hx Hl IH]; [done|].
  by rewrite filter_cons_True, IH.
Qed.

(** X1.  The list of files the script works through does not depend on the
    order in which [os.listdir] yields the names: two listings that hold the
    same names give the same list.  Filtering and sorting that list again
    changes nothing. *)
Theorem image_files_ignores_listing_order l1 l2 :
  l1 ≡ₚ l2 →
  image_files l1 = image_files l2
  ∧ image_files (image_files l1) = image_files l1.
Proof.
  intros Hp. split; [by apply image_files_of_Permutation|].
  apply (StronglySorted_unique_strong (λ a b, String.leb a b = true)).
  - intros x y _ _. apply String.leb_antisym.
  - apply image_files_sorted.
  - apply image_files_sorted.
  - rewrite (image_files_Permutation (image_files l1)).
    by rewrite filter_all by apply image_files_all_images.
Qed.

(** X1 on two listings of the spec's example folder. *)
Lemma image_files_ignores_listing_order_witness :
  image_files ["c.bmp"; "notes.txt"; "a.png"; "b.jpg"]
  = image_files ["b.jpg"; "a.png"; "c.bmp"; "notes.txt"]
  ∧ image_files (image_files ["c.bmp"; "notes.txt"; "a.png"; "b.jpg"])
    = image_files ["c.bmp"; "notes.txt"; "a.png"; "b.jpg"].
Proof.
  apply image_files_ignores_listing_order.
  apply (bool_decide_unpack _). vm_compute. reflexivity.
Defined.

(** ** Lower case and extensions *)

Lemma lower_ascii_idem c : Str.lower_ascii (Str.lower_ascii c) = Str.lower_ascii c.
Proof. by destruct c as [[] [] [] [] [] [] [] []]. Qed.

Lemma lower_idem s : Str.lower (Str.lower s) = Str.lower s.
Proof. induction s as [|c s IH]; simpl; [done|]. by rewrite lower_ascii_idem, IH. Qed.

Lemma eqb_lower_dot c : Ascii.eqb (Str.lower_ascii c) "." = Ascii.eqb c ".".
Proof. by destruct c as [[] [] [] [] [] [] [] []]. Qed.

Lemma eqb_lower_sep c : Ascii.eqb (Str.lower_ascii c) "/" = Ascii.eqb c "/".
Proof. by destruct c as [[] [] [] [] [] [] [] []]. Qed.

Lemma rfind_from_lower c i s :
  (∀ a, Ascii.eqb (Str.lower_ascii a) c = Ascii.eqb a c) →
  Str.rfind_from i c (Str.lower s) = Str.rfind_from i c s.
Proof.
  intros Hc. revert i. induction s as [|a s IH]; intros i; simpl; [done|].
  by rewrite IH, Hc.
Qed.

Lemma take_lower n s : Str.take n (Str.lower s) = Str.lower (Str.take n s).
Proof.
  revert s. induction n as [|n IH]; intros [|c s]; simpl; try done.
  by rewrite IH.
Qed.

Lemma drop_lower n s : Str.drop n (Str.lower s) = Str.lower (Str.drop n s).
Proof. revert s. induction n as [|n IH]; intros [|c s]; simpl; try done. Qed.

Lemma has_non_dot_lower s : Path.has_non_dot (Str.lower s) = Path.has_non_dot s.
Proof.
  induction s as [|c s IH]; simpl; [done|]. by rewrite eqb_lower_dot, IH.
Qed.

Lemma splitext_lower p :
  Path.splitext (Str.lower p)
  = (Str.lower (Path.splitext p).1, Str.lower (Path.splitext p).2).
Proof.
  unfold Path.splitext, Str.rfind.
  rewrite !rfind_from_lower by auto using eqb_lower_dot, eqb_lower_sep.
  repeat (rewrite drop_lower || rewrite take_lower).
  rewrite has_non_dot_lower.
  by destruct (_ && _).
Qed.

(** X2.  Both tests on file names ignore the case of letters: two names that
    are equal once lower-cased are both image names or both not (lines
    24-25), and both PNG names or both not (line 57). *)
Theorem extension_tests_ignore_case f g :
  Str.lower f = Str.lower g →
  (is_image f ↔ is_image g) ∧ (is_png f ↔ is_png g).
Proof.
  intros Hfg. split.
  - unfold is_image.
    assert (∀ h, Str.lower (Path.splitext h).2
                 = (Path.splitext (Str.lower h)).2) as Hl.
    { intros h. by rewrite splitext_lower. }
    by rewrite !Hl, Hfg.
  - unfold is_png. by rewrite Hfg.
Qed.

(** X2 on a name in mixed case and its lower-case form. *)
Lemma extension_tests_ignore_case_witness :
  (is_image "Holiday.JPeG" ↔ is_image "holiday.jpeg")
  ∧ (is_png "Holiday.JPeG" ↔ is_png "holiday.jpeg").
Proof. apply extension_tests_ignore_case. reflexivity. Defined.

(** ** Splitting off the extension *)

Lemma take_drop_string n s : Str.take n s +:+ Str.drop n s = s.
Proof.
  revert s. induction n as [|n IH]; intros [|c s]; try done.
  simpl. by rewrite append_cons, IH.
Qed.

Lemma append_nil_r s : s +:+ EmptyString = s.
Proof. induction s as [|c s IH]; [done|]. by rewrite append_cons, IH. Qed.

Lemma rfind_from_range i c s :
  0 ≤ i →
  Str.rfind_from i c s = -1
  ∨ i ≤ Str.rfind_from i c s < i + Z.of_nat (String.length s).
Proof.
  revert i. induction s as [|a s IH]; intros i Hi; simpl; [by left|].
  destruct (IH (i + 1) ltac:(lia)) as [->|Hr].
  - simpl. destruct (Ascii.eqb a c); [right; lia|by left].
  - destruct (Z.leb_spec 0 (Str.rfind_from (i + 1) c s)); [right; lia|lia].
Qed.

Lemma rfind_from_app i c a b :
  0 ≤ i →
  Str.rfind_from i c (a +:+ b)
  = if 0 <=? Str.rfind_from (i + Z.of_nat (String.length a)) c b
    then Str.rfind_from (i + Z.of_nat (String.length a)) c b
    else Str.rfind_from i c a.
Proof.
  revert i. induction a as [|x a IH]; intros i Hi.
  - rewrite append_nil_l. cbn [Str.rfind_from String.length].
    rewrite Z.add_0_r.
    destruct (rfind_from_range i c b Hi) as [->|?]; [done|].
    destruct (Z.leb_spec 0 (Str.rfind_from i c b)); [done|lia].
  - rewrite append_cons. cbn [Str.rfind_from String.length].
    rewrite IH by lia.
    replace (i + 1 + Z.of_nat (String.length a))
      with (i + Z.of_nat (S (String.length a))) by lia.
    set (R := Str.rfind_from (i + Z.of_nat (S (String.length a))) c b).
    destruct (0 <=? R) eqn:HR; [by rewrite HR|done].
Qed.

Lemma take_app_length_string s1 s2 :
  Str.take (String.length s1) (s1 +:+ s2) = s1.
Proof.
  induction s1 as [|c s1 IH]; [by destruct s2|].
  rewrite append_cons. simpl. by rewrite IH.
Qed.

Lemma length_take_string n s :
  (n ≤ String.length s)%nat → String.length (Str.take n s) = n.
Proof.
  revert s. induction n as [|n IH]; intros [|c s] Hn; simpl in *; try done; try lia.
  rewrite IH; [done|lia].
Qed.

Lemma has_non_dot_nonempty s : Path.has_non_dot s = true → s ≠ EmptyString.
Proof. by destruct s. Qed.

(** The extensions hold one dot, in front, and no separator. *)
Lemma extension_shape e :
  Str.lower e ∈ extensions →
  Str.rfind "." e = 0 ∧ Str.rfind "/" e = -1.
Proof.
  intros He. unfold Str.rfind.
  rewrite <- (rfind_from_lower "." 0 e), <- (rfind_from_lower "/" 0 e)
    by auto using eqb_lower_dot, eqb_lower_sep.
  unfold extensions in He.
  repeat (apply elem_of_cons in He as [->|He]; [done|]).
  by apply elem_of_nil in He.
Qed.

Lemma rfind_from_shift i j c s :
  0 ≤ i → 0 ≤ j →
  Str.rfind_from j c s
  = if Str.rfind_from i c s =? -1 then -1 else Str.rfind_from i c s + (j - i).
Proof.
  revert i j. induction s as [|a s IH]; intros i j Hi Hj; simpl; [done|].
  rewrite (IH (i + 1) (j + 1)) by lia.
  destruct (rfind_from_range (i + 1) c s ltac:(lia)) as [->|Hr].
  - simpl. destruct (Ascii.eqb a c).
    + destruct (Z.eqb_spec i (-1)); [lia|]. f_equal. lia.
    + done.
  - destruct (Z.eqb_spec (Str.rfind_from (i + 1) c s) (-1)); [lia|].
    destruct (Z.leb_spec 0 (Str.rfind_from (i + 1) c s)); [|lia].
    destruct (Z.leb_spec 0 (Str.rfind_from (i + 1) c s + (j + 1 - (i + 1))));
      [|lia].
    destruct (Z.eqb_spec (Str.rfind_from (i + 1) c s) (-1)); [lia|]. lia.
Qed.

(** A stem with a character other than a dot, followed by an allowed
    extension in any letter case, is an image name. *)
Lemma is_image_intro s e :
  Str.rfind "/" s = -1 →
  Path.has_non_dot s = true →
  Str.lower e ∈ extensions →
  Path.splitext (s +:+ e) = (s, e) ∧ is_image (s +:+ e).
Proof.
  intros Hsep Hs He.
  destruct (extension_shape e He) as [Hdot Hnosep].
  assert (Path.splitext (s +:+ e) = (s, e)) as Hsplit.
  { unfold Path.splitext, Str.rfind in *.
    rewrite !rfind_from_app by lia. rewrite !Z.add_0_l.
    rewrite (rfind_from_shift 0 (Z.of_nat (String.length s)) "." e) by lia.
    rewrite (rfind_from_shift 0 (Z.of_nat (String.length s)) "/" e) by lia.
    rewrite Hdot, Hnosep, Hsep. simpl.
    replace (0 + (Z.of_nat (String.length s) - 0))
      with (Z.of_nat (String.length s)) by lia.
    assert (String.length s ≠ 0%nat) as Hlen.
    { destruct s; [done|]. simpl. lia. }
    destruct (Z.leb_spec 0 (Z.of_nat (String.length s))); [|lia].
    destruct (Z.ltb_spec (-1) (Z.of_nat (String.length s))); [|lia].
    replace (Z.to_nat (Z.of_nat (String.length s) - (-1 + 1)))
      with (String.length s) by lia.
    rewrite Nat2Z.id.
    by rewrite !take_app_length_string, drop_app_length, Hs. }
  split; [done|]. unfold is_image. by rewrite Hsplit.
Qed.

Lemma rfind_sep_app s e :
  Str.rfind "/" (s +:+ e) = -1 → Str.rfind "/" s = -1.
Proof.
  unfold Str.rfind. rewrite rfind_from_app by lia. rewrite Z.add_0_l.
  destruct (Z.leb_spec 0 (Str.rfind_from (Z.of_nat (String.length s)) "/" e));
    [lia|done].
Qed.

(** X3.  Which names the filter of lines 24-25 takes, for a name without
    separator, as [os.listdir] yields them: exactly the names made of a stem
    that holds a character other than a dot, followed by one of the allowed
    extensions in any letter case.  So only the last extension counts, and a
    name that is nothing but an extension, or dots and an extension, is not
    taken. *)
Theorem image_names_without_separator f :
  Str.rfind "/" f = -1 →
  is_image f ↔
  ∃ s e, f = s +:+ e ∧ Path.has_non_dot s = true ∧ Str.lower e ∈ extensions.
Proof.
  intros Hsep. split.
  - unfold is_image, Path.splitext. rewrite Hsep.
    destruct (_ && _) eqn:Hc; cbn [snd]; last first.
    { intros H. unfold extensions in H.
      repeat (apply elem_of_cons in H as [?|H]; [done|]).
      by apply elem_of_nil in H. }
    intros He. apply andb_prop in Hc as [_ Hs].
    exists (Str.take (Z.to_nat (Str.rfind "." f)) f),
           (Str.drop (Z.to_nat (Str.rfind "." f)) f).
    split_and!; [by rewrite take_drop_string| |done].
    change (Str.drop (Z.to_nat (-1 + 1)) f) with f in Hs.
    by replace (Str.rfind "." f - (-1 + 1)) with (Str.rfind "." f) in Hs by lia.
  - intros (s & e & -> & Hs & He). apply is_image_intro; [|done..].
    by apply rfind_sep_app in Hsep.
Qed.

(** X3, both ways: a name built from a stem and an extension is taken, and a
    name that is taken splits so. *)
Lemma image_names_without_separator_witness :
  is_image "scan.v2.TIFF"
  ∧ ∃ s e, "photo.JPG" = s +:+ e ∧ Path.has_non_dot s = true
           ∧ Str.lower e ∈ extensions.
Proof.
  split.
  - apply (image_names_without_separator "scan.v2.TIFF"); [reflexivity|].
    exists "scan.v2", ".TIFF". split_and!; [reflexivity..|compute_done].
  - apply (image_names_without_separator "photo.JPG"); [reflexivity|].
    compute_done.
Defined.

(** ** Frame names *)

Lemma lower_string_of_uint d :
  Str.lower (NilEmpty.string_of_uint d) = NilEmpty.string_of_uint d.
Proof. induction d; simpl; by rewrite ?IHd. Qed.

Lemma lower_of_nat n : Str.lower (Str.of_nat n) = Str.of_nat n.
Proof.
  unfold Str.of_nat, NilZero.string_of_uint.
  destruct (Nat.to_uint n); try done; apply lower_string_of_uint.
Qed.

Lemma lower_format_0d w n : Str.lower (Str.format_0d w n) = Str.format_0d w n.
Proof.
  unfold Str.format_0d. by rewrite lower_app, lower_zeros, lower_of_nat.
Qed.

Lemma frame_name_is_png idx : is_png (frame_name idx).
Proof.
  unfold is_png, frame_name.
  change ("frame_" +:+ Str.format_0d 3 idx +:+ ".png")
    with (("frame_" +:+ Str.format_0d 3 idx) +:+ ".png").
  rewrite lower_app. apply endswith_app.
Qed.

Lemma rfind_from_string_of_uint i d :
  Str.rfind_from i "/" (NilEmpty.string_of_uint d) = -1.
Proof. revert i. induction d; intros i; simpl; by rewrite ?IHd. Qed.

Lemma rfind_from_zeros i k : Str.rfind_from i "/" (Str.zeros k) = -1.
Proof. revert i. induction k as [|k IH]; intros i; simpl; by rewrite ?IH. Qed.

Lemma rfind_sep_format_0d i w n :
  0 ≤ i → Str.rfind_from i "/" (Str.format_0d w n) = -1.
Proof.
  intros Hi. unfold Str.format_0d. rewrite rfind_from_app by done.
  unfold Str.of_nat, NilZero.string_of_uint.
  rewrite rfind_from_zeros.
  destruct (Nat.to_uint n); try done; by rewrite rfind_from_string_of_uint.
Qed.

(** X4.  A frame name passes both tests of the script.  It is a PNG name for
    the rename step (line 57), so the frames already made are among the
    files a later rename step chooses from; and it is an image name for the
    filter of lines 24-25, its extension being [.png], so a run whose input
    folder holds frames takes them as images. *)
Theorem frames_pass_both_tests idx :
  is_png (frame_name idx)
  ∧ is_image (frame_name idx)
  ∧ Path.splitext (frame_name idx)
    = ("frame_" +:+ Str.format_0d 3 idx, ".png").
Proof.
  split; [apply frame_name_is_png|].
  unfold frame_name.
  change ("frame_" +:+ Str.format_0d 3 idx +:+ ".png")
    with (("frame_" +:+ Str.format_0d 3 idx) +:+ ".png").
  assert (Path.splitext (("frame_" +:+ Str.format_0d 3 idx) +:+ ".png")
          = ("frame_" +:+ Str.format_0d 3 idx, ".png")
          ∧ is_image (("frame_" +:+ Str.format_0d 3 idx) +:+ ".png")) as [??];
    [|done].
  apply is_image_intro.
  - unfold Str.rfind. rewrite rfind_from_app by lia.
    by rewrite rfind_sep_format_0d by done.
  - reflexivity.
  - compute_done.
Qed.

(** ** Ties between modification times *)

Lemma insort_greatest (x : Z * string) s :
  (∀ y, y ∈ s → y.1 < x.1) → insort Z.leb fst x s = s ++ [x].
Proof.
  induction s as [|y s IH]; intros Hs; simpl; [done|].
  destruct (Z.leb_spec x.1 y.1) as [Hle|Hlt].
  - specialize (Hs y ltac:(left)). lia.
  - rewrite IH; [done|]. intros z Hz. apply Hs. by right.
Qed.

Lemma last_insort (x : Z * string) s z :
  last s = Some z → x.1 ≤ z.1 → last (insort Z.leb fst x s) = Some z.
Proof.
  induction s as [|y s IH]; intros Hl Hx; [done|]. simpl.
  destruct (Z.leb_spec x.1 y.1) as [Hle|Hlt].
  - by rewrite last_cons_cons.
  - destruct s as [|y' s].
    + simpl in Hl. simplify_eq. lia.
    + rewrite last_cons_cons in Hl. specialize (IH Hl Hx).
      rewrite last_cons, IH. done.
Qed.

(** The stable sort ends with the last of the elements of greatest key. *)
Lemma sorted_last_tie (k1 k2 : list (Z * string)) x :
  (∀ y, y ∈ k1 → y.1 ≤ x.1) →
  (∀ y, y ∈ k2 → y.1 < x.1) →
  last (sorted Z.leb fst (k1 ++ x :: k2)) = Some x.
Proof.
  intros H1 H2. induction k1 as [|a k1 IH]; simpl.
  - rewrite insort_greatest; [by rewrite last_snoc|].
    intros y Hy%elem_of_sorted. by apply H2.
  - apply last_insort.
    + apply IH. intros y Hy. apply H1. by right.
    + apply H1. left.
Qed.

Lemma lookup_entry_NoDup d x :
  NoDup (name <$> d) → x ∈ d → lookup_entry (name x) d = Some x.
Proof.
  intros Hnd Hx. apply lookup_entry_unique.
  induction d as [|y d IH]; [by apply elem_of_nil in Hx|].
  rewrite fmap_cons in Hnd. apply NoDup_cons in Hnd as [Hy Hnd].
  unfold named in *. rewrite filter_cons.
  apply elem_of_cons in Hx as [->|Hx].
  - rewrite decide_True by done. f_equal.
    fold (named (name y) d). by apply named_nil.
  - rewrite decide_False; [by apply IH|].
    intros Heq. apply Hy. rewrite Heq. by apply list_elem_of_fmap_2.
Qed.

Lemma mtime_of_NoDup d x :
  NoDup (name <$> d) → x ∈ d → mtime_of d (name x) = mtime x.
Proof. intros ??. unfold mtime_of. by rewrite lookup_entry_NoDup. Qed.

(** X5.  How the rename step chooses among PNG files whose modification times
    are equal (lines 56-59).  [sorted] is stable and the last element is
    taken, so in a folder whose names are distinct, a PNG that is at least
    as new as every PNG listed before it and newer than every PNG listed
    after it is the one selected: among the newest, the one [os.listdir]
    yields last. *)
Theorem newest_png_breaks_ties_by_listing_order d1 e d2 :
  NoDup (name <$> d1 ++ e :: d2) →
  is_png (name e) →
  (∀ x, x ∈ d1 → is_png (name x) → mtime x ≤ mtime e) →
  (∀ x, x ∈ d2 → is_png (name x) → mtime x < mtime e) →
  newest (d1 ++ e :: d2) = Some (name e).
Proof.
  intros Hnd Hpng H1 H2. unfold newest.
  set (d := d1 ++ e :: d2) in *.
  assert (∀ x, x ∈ d → mtime_of d (name x) = mtime x) as Hm
    by (intros; by apply mtime_of_NoDup).
  unfold d at 2. rewrite fmap_app, fmap_cons, filter_app, filter_cons_True by done.
  rewrite fmap_app, fmap_cons, fmap_last.
  rewrite sorted_last_tie; [done|..].
  - intros y (fn & -> & [Hp (x & -> & Hx)%list_elem_of_fmap]%list_elem_of_filter)%list_elem_of_fmap.
    simpl. rewrite !Hm.
    + by apply H1.
    + unfold d. apply elem_of_app. right. left.
    + unfold d. apply elem_of_app. by left.
  - intros y (fn & -> & [Hp (x & -> & Hx)%list_elem_of_fmap]%list_elem_of_filter)%list_elem_of_fmap.
    simpl. rewrite !Hm.
    + by apply H2.
    + unfold d. apply elem_of_app. right. left.
    + unfold d. apply elem_of_app. right. by right.
Qed.

(** X5 on two PNG files of equal modification time, listed in either
    order. *)
Lemma newest_png_breaks_ties_by_listing_order_witness :
  newest [Entry "frame_001.png" 7 "one"; Entry "new.png" 7 "two";
          Entry "log.txt" 9 "log"]
  = Some "new.png"
  ∧ newest [Entry "new.png" 7 "two"; Entry "frame_001.png" 7 "one";
            Entry "log.txt" 9 "log"]
    = Some "frame_001.png".
Proof.
  split.
  - apply (newest_png_breaks_ties_by_listing_order
             [Entry "frame_001.png" 7 "one"] (Entry "new.png" 7 "two")
             [Entry "log.txt" 9 "log"]).
    + compute_done.
    + reflexivity.
    + intros x ->%list_elem_of_singleton _. simpl. lia.
    + intros x ->%list_elem_of_singleton Hp. by vm_compute in Hp.
  - apply (newest_png_breaks_ties_by_listing_order
             [Entry "new.png" 7 "two"] (Entry "frame_001.png" 7 "one")
             [Entry "log.txt" 9 "log"]).
    + compute_done.
    + reflexivity.
    + intros x ->%list_elem_of_singleton _. simpl. lia.
    + intros x ->%list_elem_of_singleton Hp. by vm_compute in Hp.
Defined.

(** ** Commands of different images *)

Lemma join_inj a f1 f2 :
  Str.startswith f1 "/" = false →
  Str.startswith f2 "/" = false →
  Path.join a f1 = Path.join a f2 → f1 = f2.
Proof.
  unfold Path.join. intros -> ->.
  destruct (_ || _).
  - apply (inj (String.append a)).
  - intros H%(inj (String.append a)). by apply (inj (String.append "/")) in H.
Qed.

Lemma of_Z_inj u1 u2 : Str.of_Z u1 = Str.of_Z u2 → u1 = u2.
Proof.
  intros H. pose proof (of_Z_parse u1) as H1. rewrite H, of_Z_parse in H1.
  congruence.
Qed.

(** X6.  The upscaler commands of a run tell the images and the upscale
    factors apart: for file names as [os.listdir] yields them (not starting
    with a separator), two commands built for the same folders and preset
    differ as soon as the file names or the factors differ. *)
Theorem different_images_different_commands
    sys_executable inp out pre u1 u2 f1 f2 :
  Str.startswith f1 "/" = false →
  Str.startswith f2 "/" = false →
  u1 ≠ u2 ∨ f1 ≠ f2 →
  upscale_cmd sys_executable out pre u1 (Path.join inp f1)
  ≠ upscale_cmd sys_executable out pre u2 (Path.join inp f2).
Proof.
  intros H1 H2 Hne Heq. unfold upscale_cmd in Heq. simpl in Heq.
  injection Heq as Hu Hrest. apply of_Z_inj in Hu.
  apply app_inv_head in Hrest. injection Hrest as Hp.
  apply join_inj in Hp; [|done..]. by destruct Hne.
Qed.

(** X6 on two files of the spec's example folder. *)
Lemma different_images_different_commands_witness :
  upscale_cmd "python" "out" (Some "anime") 2 (Path.join "in" "a.png")
  ≠ upscale_cmd "python" "out" (Some "anime") 2 (Path.join "in" "b.jpg").
Proof.
  apply different_images_different_commands; [reflexivity..|].
  right. discriminate.
Defined.

(** ** The rate of the encoder command *)



(** ** Runs with any upscaler and encoder *)

Section Runs.
Variable sys_executable : string.
Variable upscaler : list string → fs → Z * fs.
Variable encoder : string → fs → Z * fs.


Section Frame.
Variables (inp out : string) (pre : option string) (uf : Z) (total : nat).
Variable p : string.
Hypothesis p_out : p ≠ out.
Hypothesis upscaler_keeps :
  ∀ path w,
    (upscaler (upscale_cmd sys_executable out pre uf path) w).2 !! p = w !! p.

Lemma for_enumerate_keeps l idx w r w' t :
  for_enumerate (process_image sys_executable upscaler inp out pre uf total)
                idx l w = (r, w', t) →
  w' !! p = w !! p.
Proof.
  revert idx w r w' t. induction l as [|f l IH]; intros idx w r w' t.
  - by intros [= _ <- _].
  - simpl. unfold mbind, M_bind, bind.
    destruct (process_image _ _ _ _ _ _ _ idx f w) as [[r1 w1] t1] eqn:Hb.
    assert (w1 !! p = w !! p) as H1.
    { apply process_image_cases in Hb as (rc & w0 & Hup & Hcases).
      pose proof (upscaler_keeps (Path.join inp f) w) as Hk.
      rewrite Hup in Hk. simpl in Hk.
      destruct Hcases as [(_ & _ & -> & _)|(_ & tr & Hr & _)]; [done|].
      apply rename_step_cases in Hr
        as [(d & g & _ & _ & _ & -> & _)|(e & _ & -> & _)]; [|done].
      by rewrite lookup_insert_ne. }
    destruct r1 as [e|[]]; [by intros [= _ <- _]|].
    destruct (for_enumerate _ _ _ _) as [[r2 w2] t2] eqn:Hl.
    intros [= _ <- _]. rewrite <- H1. by eapply IH.
Qed.
End Frame.

(** X9.  The script itself writes in the output folder only.  If the
    upscaler, run on the commands of the script, and the encoder leave a
    directory other than the output folder as they find it, then after any
    run, failed or not, that directory is as it was once the output folder
    had been created; a directory that existed before the run, such as the
    input folder, is unchanged. *)
Theorem only_the_output_folder_is_written inp out pre uf fr fps p w r w' t :
  p ≠ out →
  (∀ path w0,
     (upscaler (upscale_cmd sys_executable out pre uf path) w0).2 !! p
     = w0 !! p) →
  (∀ cmd w0, (encoder cmd w0).2 !! p = w0 !! p) →
  process_images sys_executable upscaler encoder inp out pre uf fr fps w
  = (r, w', t) →
  w' !! p = after_makedirs out w !! p
  ∧ (∀ dp, w !! p = Some dp → w' !! p = Some dp).
Proof.
  intros Hp Hup Henc Hrun.
  assert (w' !! p = after_makedirs out w !! p) as Heq.
  { destruct (after_makedirs out w !! inp) as [d|] eqn:Hd; last first.
    { rewrite process_images_missing in Hrun by done. by simplify_eq. }
    destruct (decide (image_files (name <$> d) = [])) as [Hf|Hf].
    { rewrite (process_images_no_images _ _ _ _ _ _ _ _ _ _ d Hd Hf) in Hrun.
      by simplify_eq. }
    rewrite (process_images_images _ _ _ _ _ _ _ _ _ _ d Hd Hf) in Hrun.
    destruct (for_enumerate _ _ _ _) as [[r2 w2] t2] eqn:Hloop.
    apply (for_enumerate_keeps _ _ _ _ _ p Hp Hup) in Hloop.
    destruct r2 as [e|[]]; [by simplify_eq|].
    rewrite encode_run in Hrun.
    destruct (ffmpeg_cmd out fr fps); simplify_eq; [done|].
    by rewrite Henc. }
  split; [done|]. intros dp Hdp. rewrite Heq. by apply after_makedirs_keeps.
Qed.

Section Trace.
Variables (inp out : string) (pre : option string) (uf : Z) (total : nat).

Let cmd_of (f : string) :=
  upscale_cmd sys_executable out pre uf (Path.join inp f).

(** The child processes and renames of any run of the loop. *)
Lemma for_enumerate_trace l idx w r w' t :
  for_enumerate (process_image sys_executable upscaler inp out pre uf total)
                idx l w = (r, w', t) →
  ∃ j, (j ≤ length l)%nat
       ∧ (renames t).*2 = frame_name <$> seq idx j
       ∧ ((r = inr tt ∧ j = length l
           ∧ runs t = (λ f, (cmd_of f, 0)) <$> l)
          ∨ (∃ e f rc, r = inl e ∧ l !! j = Some f
                       ∧ runs t = ((λ f, (cmd_of f, 0)) <$> take j l)
                                  ++ [(cmd_of f, rc)])).
Proof.
  destruct r as [e|[]].
  - intros (j & f & wj & tj & tf & Hj & Hpre & Hbody & ->)%for_enumerate_raises.
    pose proof (lookup_lt_Some _ _ _ Hj) as Hlt.
    apply for_enumerate_returns in Hpre as (Hren & Hruns & _).
    rewrite length_take_le in Hren by lia.
    exists j. split; [lia|].
    apply process_image_cases in Hbody
      as (rc & w0 & Hup & [(_ & _ & _ & ->)|(-> & tr & Hr & ->)]).
    + split.
      * rewrite renames_app, fmap_app, Hren. simpl. by rewrite app_nil_r.
      * right. exists e, f, rc. split_and!; [done..|].
        by rewrite runs_app, Hruns.
    + apply rename_step_cases in Hr
        as [(? & ? & _ & _ & ? & _)|(e' & _ & _ & -> & _)]; [done|].
      split.
      * rewrite renames_app, fmap_app, Hren. simpl. by rewrite app_nil_r.
      * right. exists e, f, 0. split_and!; [done..|].
        by rewrite runs_app, Hruns.
  - intros (Hren & Hruns & _)%for_enumerate_returns.
    exists (length l). split; [lia|]. split; [done|]. left. done.
Qed.
End Trace.

(** X10.  Whatever the upscaler and the encoder do, the child processes of a
    run are the upscaler commands of the sorted image files, in order and
    from the first on, and its renames go to the frame names
    [frame_001.png], [frame_002.png], ... in order and from the first on.
    There are never more renames than child processes and never more than
    one child process without its rename; there are never more child
    processes than image files; every child process but the last exited with
    status 0; a run that returns normally has renamed once per image
    file. *)
Theorem trace_follows_the_sorted_files inp out pre uf fr fps w d r w' t :
  after_makedirs out w !! inp = Some d →
  process_images sys_executable upscaler encoder inp out pre uf fr fps w
  = (r, w', t) →
  (runs t).*1
  = take (length (runs t))
         ((λ f, upscale_cmd sys_executable out pre uf (Path.join inp f))
            <$> image_files (name <$> d))
  ∧ (renames t).*2
    = take (length (renames t))
           (frame_name <$> seq 1 (length (image_files (name <$> d))))
  ∧ (length (renames t) ≤ length (runs t) ≤ S (length (renames t)))%nat
  ∧ (length (runs t) ≤ length (image_files (name <$> d)))%nat
  ∧ (∀ i c rc, runs t !! i = Some (c, rc) →
               (S i < length (runs t))%nat → rc = 0)
  ∧ (r = inr tt → length (renames t) = length (image_files (name <$> d))).
Proof.
  intros Hd Hrun.
  destruct (decide (image_files (name <$> d) = [])) as [Hf|Hf].
  { rewrite (process_images_no_images _ _ _ _ _ _ _ _ _ _ d Hd Hf) in Hrun.
    simplify_eq. rewrite Hf. simpl. split_and!; try done; try lia. }
  rewrite (process_images_images _ _ _ _ _ _ _ _ _ _ d Hd Hf) in Hrun.
  set (files := image_files (name <$> d)) in *.
  destruct (for_enumerate _ _ _ _) as [[r2 w2] t2] eqn:Hloop.
  apply for_enumerate_trace in Hloop as (j & Hj & Hren & Hcases).
  assert (runs t = runs t2 ∧ renames t = renames t2
          ∧ (r = inr tt → r2 = inr tt)) as (-> & -> & Hr).
  { destruct r2 as [e|[]]; [by simplify_eq|].
    rewrite encode_run in Hrun.
    destruct (ffmpeg_cmd out fr fps); simplify_eq.
    - rewrite app_nil_r. done.
    - change (runs (Makedirs out :: Listdir inp :: ?u)) with (runs u).
      change (renames (Makedirs out :: Listdir inp :: ?u)) with (renames u).
      rewrite runs_app, renames_app. simpl. by rewrite !app_nil_r. }
  assert (length (renames t2) = j) as Hlen.
  { rewrite <- (length_fmap snd), Hren, length_fmap, length_seq. done. }
  rewrite Hren, Hlen.
  assert (frame_name <$> seq 1 j
          = take j (frame_name <$> seq 1 (length files))) as ->.
  { rewrite <- fmap_take, take_seq. by rewrite Nat.min_l by done. }
  destruct Hcases as [(-> & -> & Hruns)|(e & f & rc & -> & Hf' & Hruns)].
  - rewrite Hruns, !length_fmap, <- list_fmap_compose.
    rewrite take_ge by (by rewrite length_fmap).
    split_and!; try done; try lia.
    intros i c rc Hi _. rewrite list_lookup_fmap in Hi.
    destruct (files !! i); by simplify_eq/=.
  - pose proof (lookup_lt_Some _ _ _ Hf') as Hlt.
    rewrite Hruns, length_app, length_fmap, length_take_le by lia. simpl.
    split_and!; try done; try lia.
    + rewrite fmap_app, <- list_fmap_compose. simpl.
      replace (j + 1)%nat with (S j) by lia.
      rewrite <- fmap_take. rewrite (take_S_r _ _ _ Hf'), fmap_app. done.
    + intros i c rc' Hi Hlast.
      rewrite lookup_app_l in Hi by (rewrite length_fmap, length_take_le; lia).
      rewrite list_lookup_fmap in Hi.
      destruct (take j files !! i); by simplify_eq/=.
    + intros Hr'. by apply Hr in Hr'.
Qed.

End Runs.


(** X10 on the spec's example folder, the upscaler failing on the second
    image. *)
Lemma trace_follows_the_sorted_files_witness :
  ∃ r w' t,
    process_images "python" (upscaler_failing_on "in/b.jpg" 1)
                   (exiting_encoder 0) "in" "out" None 2 1 30 three_images
    = (r, w', t)
    ∧ (length (renames t) ≤ length (runs t) ≤ S (length (renames t)))%nat
    ∧ (length (runs t) ≤ 3)%nat.
Proof.
  eexists _, _, _. split; [vm_compute; reflexivity|].
  edestruct (trace_follows_the_sorted_files
               "python" (upscaler_failing_on "in/b.jpg" 1) (exiting_encoder 0)
               "in" "out" None 2 1 30 three_images
               [Entry "b.jpg" 12 "B"; Entry "a.png" 11 "A";
                Entry "c.bmp" 10 "C"; Entry "notes.txt" 13 "N"])
    as (_ & _ & Hbetween & Hatmost & _).
  - reflexivity.
  - vm_compute. reflexivity.
  - split; [exact Hbetween|exact Hatmost].
Defined.

(** X9 on the spec's example folder: the input folder after a whole run. *)
Lemma only_the_output_folder_is_written_witness :
  ∃ r w' t,
    process_images "python" depositing_upscaler (exiting_encoder 0)
                   "in" "out" None 2 1 30 three_images
    = (r, w', t)
    ∧ w' !! "in" = three_images !! "in".
Proof.
  eexists _, _, _. split; [vm_compute; reflexivity|].
  edestruct (only_the_output_folder_is_written
               "python" depositing_upscaler (exiting_encoder 0)
               "in" "out" None 2 1 30 "in" three_images) as [Hsame _].
  - discriminate.
  - intros path w0. unfold depositing_upscaler.
    change (arg_after "--output-path" (upscale_cmd "python" "out" None 2 path))
      with "out".
    by apply lookup_insert_ne.
  - reflexivity.
  - vm_compute. reflexivity.
  - rewrite Hsame. reflexivity.
Defined.

(** ** An upscaler that writes nothing *)

Section IdleUpscaler.
Variable sys_executable : string.
Variable upscaler : list string → fs → Z * fs.

(** X11.  An upscaler that exits with status 0 without writing anything goes
    unnoticed when an earlier frame is the newest PNG of the output folder.
    Frame names end in [.png], so the rename step selects that frame: the
    iteration returns normally and has renamed the earlier frame to the frame
    name of the current position.  The earlier frame name is free
    afterwards, and the current frame holds the content of the earlier
    one. *)
Theorem idle_upscaler_moves_an_earlier_frame
    inp out pre uf total idx i f w d e :
  upscaler (upscale_cmd sys_executable out pre uf (Path.join inp f)) w
  = (0, w) →
  w !! out = Some d →
  newest d = Some (frame_name i) →
  named (frame_name i) d = [e] →
  i ≠ idx →
  is_png (frame_name i)
  ∧ ∃ w' d',
      process_image sys_executable upscaler inp out pre uf total idx f w
      = (inr tt, w',
         [Print (progress_line total idx f);
          SubprocessRun
            (upscale_cmd sys_executable out pre uf (Path.join inp f)) 0;
          Listdir out; Rename (frame_name i) (frame_name idx)])
      ∧ w' !! out = Some d'
      ∧ named (frame_name i) d' = []
      ∧ named (frame_name idx) d'
        = [Entry (frame_name idx) (mtime e) (data e)].
Proof.
  intros Hup Hd Hg He Hi. split; [apply frame_name_is_png|].
  assert (frame_name i ≠ frame_name idx) as Hne
    by (by intros ?%frame_name_inj).
  exists (<[out := rename_in (frame_name i) (frame_name idx) d]> w),
         (rename_in (frame_name i) (frame_name idx) d).
  split_and!.
  - unfold process_image, print, emit, subprocess_run.
    unfold mbind, M_bind, bind. rewrite Hup. simpl.
    by rewrite (rename_step_run _ _ _ d Hd), Hg.
  - by rewrite lookup_insert_eq.
  - apply named_nil. by apply rename_in_source_gone.
  - by rewrite named_rename_in_target, He.
Qed.
End IdleUpscaler.

(** X11 on the second image of three, the first frame being in place. *)
Lemma idle_upscaler_moves_an_earlier_frame_witness :
  ∃ w' d',
    process_image "python" idle_upscaler "in" "out" None 2 3 2 "b.jpg"
      {[ "out" := [Entry "frame_001.png" 7 "upscaled in/a.png"] ]}
    = (inr tt, w',
       [Print "[2/3] Processing b.jpg → frame_002.png";
        SubprocessRun (upscale_cmd "python" "out" None 2 "in/b.jpg") 0;
        Listdir "out"; Rename "frame_001.png" "frame_002.png"])
    ∧ w' !! "out" = Some d'
    ∧ named "frame_001.png" d' = []
    ∧ named "frame_002.png" d'
      = [Entry "frame_002.png" 7 "upscaled in/a.png"].
Proof.
  apply (idle_upscaler_moves_an_earlier_frame "python" idle_upscaler
           "in" "out" None 2 3 2%nat 1%nat "b.jpg"
           {[ "out" := [Entry "frame_001.png" 7 "upscaled in/a.png"] ]}
           [Entry "frame_001.png" 7 "upscaled in/a.png"]
           (Entry "frame_001.png" 7 "upscaled in/a.png"));
    [reflexivity|reflexivity|reflexivity|reflexivity|lia].
Defined.

(** ** The other files of the output folder *)

Section Bystanders.
Variable sys_executable : string.
Variable upscaler : list string → fs → Z * fs.
Variable encoder : string → fs → Z * fs.
Variables (inp out : string) (pre : option string) (uf : Z).
Variable content : string → string.
Hypothesis contract : keeps_contract sys_executable upscaler out pre uf content.

(** With an upscaler that keeps its contract the loop leaves alone what
    stands, alone under its name, under another name than the frames it
    makes. *)
Lemma for_enumerate_deposits_keeps total l idx w d :
  w !! out = Some d →
  ∃ w' t d',
    for_enumerate (process_image sys_executable upscaler inp out pre uf total)
                  idx l w = (inr tt, w', t)
    ∧ w' !! out = Some d'
    ∧ ∀ fn x, fn ∉ frame_name <$> seq idx (length l) →
              named fn d = [x] → named fn d' = [x].
Proof.
  revert idx w d. induction l as [|f l IH]; intros idx w d Hd.
  - by exists w, [], d.
  - destruct (process_image_deposits sys_executable upscaler inp out pre uf
                total content contract idx f w d Hd)
      as (w1 & t1 & d1 & m & Hb & Hd1 & _ & Hkeep).
    destruct (IH (S idx) w1 d1 Hd1) as (w2 & t2 & d2 & Hl & Hd2 & Hkeep2).
    exists w2, (t1 ++ t2), d2. split_and!.
    + simpl. unfold mbind, M_bind, bind. by rewrite Hb, Hl.
    + done.
    + intros fn x Hfn Hx. simpl in Hfn.
      apply not_elem_of_cons in Hfn as [Hne Hfn].
      apply Hkeep2; [done|]. by apply Hkeep.
Qed.

End Bystanders.

